(** * Orbital mechanics and animation core of the solar-system visualisation

    A shallow embedding of
      - [advanced3/utils/orbitalCalculations.ts]  (Kepler solver, frame
        transform, element blender),
      - [advanced3/utils/PlanetDataService.ts]    (day-indexed data cache),
      - [advanced4/components/CelestialBody.tsx]  (the [AnimationHandler]
        frame callback and its interpolator),
    followed by the properties proved about them.

    Numbers.  JavaScript numbers are IEEE-754 doubles.  The frame transform
    only negates, subtracts, multiplies and divides, so it is written once
    over an interface [Number] and instantiated both at the real numbers and
    at Rocq's primitive binary64 floats (which have NaN and infinities).
    The solver, the blender and the animation driver use trigonometry,
    [Math.abs], comparisons and [%]; they are embedded over the real numbers
    [R], i.e. rounding is idealised away and every operand is finite.

    Dates.  A date string is either a well-formed calendar date
    [YYYY-MM-DD], represented by its day number since 1970-01-01, or a
    string that [new Date(...)] cannot parse.  The code steps through
    dates in local time ([setDate(getDate() + 1)]) and reads them back in
    UTC ([toISOString]); the local calendar of the runtime is a parameter
    [TimeZone] of the embedding, and statements that need local days of
    24 hours say so ([fixedOffset]).

    Objects.  Tables and caches are plain JavaScript objects, so a lookup
    by a name that [Object.prototype] defines ('constructor', 'toString',
    ...) finds the inherited member when the object has no property of
    its own under that name ([inheritedName]). *)

From Stdlib Require Import Reals Lra Lia ZArith.
From Stdlib Require Floats.PrimFloat Numbers.Cyclic.Int63.Uint63.
From Stdlib Require Import Ascii String.
From stdpp Require Import gmap strings list.

Set Default Proof Using "Type".

(* ===================================================================== *)
(** * Part I: definitions                                                 *)
(* ===================================================================== *)

(** ** JavaScript numbers *)

(** The arithmetic the frame transform needs.  [nlit m d] is the decimal
    literal whose value is [m / d]. *)
Class Number (num : Type) := {
  nlit : Z -> positive -> num;
  nneg : num -> num;
  nsub : num -> num -> num;
  nmul : num -> num -> num;
  ndiv : num -> num -> num
}.

#[export] Instance RNumber : Number R := {
  nlit m d := (IZR m / IZR (Zpos d))%R;
  nneg := Ropp;
  nsub := Rminus;
  nmul := Rmult;
  ndiv := Rdiv
}.

Definition float_of_Z (z : Z) : PrimFloat.float :=
  match z with
  | Zneg p => PrimFloat.opp (PrimFloat.of_uint63 (Uint63.of_Z (Zpos p)))
  | _ => PrimFloat.of_uint63 (Uint63.of_Z z)
  end.

(** Binary64 arithmetic: a literal [m / d] with [m] and [d] below [2^53] is
    the correctly rounded quotient, which is the double the JavaScript
    literal denotes. *)
#[export] Instance FloatNumber : Number PrimFloat.float := {
  nlit m d := PrimFloat.div (float_of_Z m) (float_of_Z (Zpos d));
  nneg := PrimFloat.opp;
  nsub := PrimFloat.sub;
  nmul := PrimFloat.mul;
  ndiv := PrimFloat.div
}.

(** [Math.PI] as a double. *)
Definition float_PI : PrimFloat.float := nlit 3141592653589793 1000000000000000.

(** The first two lines of [calculateCelestialPosition] in binary64:
    [n = (2 * Math.PI) / T] and [M = M0 * (Math.PI / 180) + n * elapsedDays]. *)
Definition floatMeanAnomaly (M0 T elapsedDays : PrimFloat.float)
  : PrimFloat.float :=
  let n := PrimFloat.div (PrimFloat.mul (float_of_Z 2) float_PI) T in
  PrimFloat.add
    (PrimFloat.mul M0 (PrimFloat.div float_PI (float_of_Z 180)))
    (PrimFloat.mul n elapsedDays).

(** [{x, y, z}] *)
Record Position (num : Type) := mkPosition {
  pos_x : num;
  pos_y : num;
  pos_z : num
}.
Arguments mkPosition {num} _ _ _.
Arguments pos_x {num} _.
Arguments pos_y {num} _.
Arguments pos_z {num} _.

(** [PlanetData] of [types.ts]: the Keplerian elements of one body. *)
Record PlanetData := mkPlanetData {
  pd_a : R;   (* a  : semi-major axis *)
  pd_e : R;   (* e  : eccentricity *)
  pd_i : R;   (* i  : inclination, degrees *)
  pd_om : R;  (* om : longitude of ascending node, degrees *)
  pd_w : R;   (* w  : argument of perihelion, degrees *)
  pd_M0 : R;  (* M0 : mean anomaly at epoch, degrees *)
  pd_T : R    (* T  : orbital period, days *)
}.

(** ** orbitalCalculations.ts *)

(** [String.prototype.toLowerCase] on the ASCII letters. *)
Definition lower_ascii (c : ascii) : ascii :=
  let n := nat_of_ascii c in
  if (65 <=? n)%nat && (n <=? 90)%nat then ascii_of_nat (n + 32) else c.

Fixpoint toLowerCase (s : string) : string :=
  match s with
  | EmptyString => EmptyString
  | String c r => String (lower_ascii c) (toLowerCase r)
  end.

Section FrameTransform.
Context {num : Type} `{Number num}.

Definition nzero : num := nlit 0 1.
Definition none_ : num := nlit 1 1.

(** [orbitCorrectionMap]: every entry is a non-zero constant, so
    [orbitCorrectionMap[key] || 1] is [1] exactly when the key is absent. *)
Definition orbitCorrectionMap : list (string * num) :=
  [ ("sun", nlit 1 1); ("mercury", nlit 1 1); ("venus", nlit 1 1);
    ("earth", nlit 1 1); ("mars", nlit 1 1); ("jupiter", nlit 17 10);
    ("saturn", nlit 32 10); ("uranus", nlit 40 10); ("neptune", nlit 5 1) ].

(** [orbitCorrectionMap[key]] for a key that is an own property or names
    nothing.  The map is a plain object: for a key that names a member of
    [Object.prototype] (of the lower-cased keys, 'constructor' and
    '__proto__') the lookup finds that member, which is truthy and not a
    number, and the quotients below are NaN; statements that depend on the
    factor exclude such keys. *)
Fixpoint lookupCorrection (m : list (string * num)) (key : string)
  : option num :=
  match m with
  | [] => None
  | (k, v) :: r => if String.eqb k key then Some v else lookupCorrection r key
  end.

Definition ORBIT_VISUALIZATION_SCALE : num := nlit 9 100000000.

Definition transformToGeocentricVisualization
    (bodyName : string) (position earthPosition : Position num)
  : Position num :=
  if String.eqb bodyName "Earth" then
    mkPosition nzero nzero nzero
  else if String.eqb bodyName "Sun" then
    let geoX := nmul (nneg (pos_x earthPosition)) ORBIT_VISUALIZATION_SCALE in
    let geoY := nmul (nneg (pos_y earthPosition)) ORBIT_VISUALIZATION_SCALE in
    mkPosition geoX nzero geoY
  else
    let correctionKey := toLowerCase bodyName in
    let correctionFactor :=
      match lookupCorrection orbitCorrectionMap correctionKey with
      | Some c => c
      | None => none_
      end in
    let geo (p q : num) :=
      ndiv (nmul (nsub p q) ORBIT_VISUALIZATION_SCALE) correctionFactor in
    let geoX := geo (pos_x position) (pos_x earthPosition) in
    let geoY := geo (pos_y position) (pos_y earthPosition) in
    let geoZ := geo (pos_z position) (pos_z earthPosition) in
    mkPosition geoX geoZ geoY.
End FrameTransform.

Local Open Scope R_scope.

(** [THREE.MathUtils.degToRad] *)
Definition degToRad (degrees : R) : R := degrees * (PI / 180).

Definition tolerance : R := 1 / 1000000.
Definition maxIterations : nat := 10.

(** The [while] loop of [calculateCelestialPosition].  [budget] is
    [maxIterations - iterations], so [iterations < maxIterations] is
    [budget <> 0]; the result is the final [(E, prevE, iterations)].
    Numbers are real numbers here.  In binary64 the first test
    [|M - (M - 1)| > 1e-6] fails for [|M| >= 2^53] and for a NaN, and the
    loop takes no turn; statements about the number of turns keep [M] in
    [[0, 2 pi)]. *)
Fixpoint keplerLoop (budget : nat) (M ecc E prevE : R) (iterations : nat)
  : R * R * nat :=
  match budget with
  | O => (E, prevE, iterations)
  | S b =>
      if Rgt_dec (Rabs (E - prevE)) tolerance
      then keplerLoop b M ecc (M + ecc * sin E) E (S iterations)
      else (E, prevE, iterations)
  end.

Definition solveKepler (M ecc : R) : R * R * nat :=
  keplerLoop maxIterations M ecc M (M - 1) 0.

(** [M = M0 * (Math.PI / 180) + n * elapsedDays] with [n = 2 pi / T].  For
    [T = 0] the quotient is infinite in binary64 and [M] is infinite or NaN;
    the real quotient stands for the code's for [T <> 0]. *)
Definition meanAnomaly (data : PlanetData) (elapsedDays : R) : R :=
  let n := (2 * PI) / pd_T data in
  degToRad (pd_M0 data) + n * elapsedDays.

(** [calculateCelestialPosition] over the reals.  For [e >= 1] the
    argument of [Math.sqrt] is negative or a division by zero and the
    result is NaN in binary64; the real-valued point stands for the code's
    for [0 <= e < 1] and [T <> 0]. *)
Definition calculateCelestialPosition (data : PlanetData) (elapsedDays : R)
  : Position R :=
  let M := meanAnomaly data elapsedDays in
  let E := fst (fst (solveKepler M (pd_e data))) in
  let f := 2 * atan (sqrt ((1 + pd_e data) / (1 - pd_e data)) * tan (E / 2)) in
  let r := pd_a data * (1 - pd_e data * cos E) in
  let cosOM := cos (degToRad (pd_om data)) in
  let sinOM := sin (degToRad (pd_om data)) in
  let cosW := cos (degToRad (pd_w data)) in
  let sinW := sin (degToRad (pd_w data)) in
  let cosI := cos (degToRad (pd_i data)) in
  let sinI := sin (degToRad (pd_i data)) in
  let x_prime := r * (cosW * cos f - sinW * sin f) in
  let y_prime := r * (sinW * cos f + cosW * sin f) in
  let z_prime := r * sin f * sinI in
  let x := x_prime * cosOM - y_prime * sinOM in
  let y := x_prime * sinOM + y_prime * cosOM in
  let z := z_prime * cosI in
  mkPosition x y z.

(** Rounding toward zero, and JavaScript's [%] (the sign follows the
    dividend): [a % b = a - b * trunc (a / b)]. *)
Definition Rtrunc (x : R) : Z :=
  if Rle_dec 0 x then Zfloor x else Zceil x.

Definition js_rem (a b : R) : R := a - b * IZR (Rtrunc (a / b)).

Definition interpolateAngle (a1 a2 t : R) : R :=
  let diff := js_rem (a2 - a1) 360 in
  let diff := if Rgt_dec diff 180 then diff - 360 else diff in
  let diff := if Rlt_dec diff (-180) then diff + 360 else diff in
  js_rem (a1 + diff * t) 360.

(** [interpolateOrbitalElements] in exact arithmetic.  In binary64
    [start + progress * (end - start)] is rounded, so at [progress = 1] it
    need not be [end] to the last bit. *)
Definition interpolateOrbitalElements (startData endData : PlanetData)
    (progress : R) : PlanetData :=
  {| pd_a := pd_a startData + progress * (pd_a endData - pd_a startData);
     pd_e := pd_e startData + progress * (pd_e endData - pd_e startData);
     pd_i := interpolateAngle (pd_i startData) (pd_i endData) progress;
     pd_om := interpolateAngle (pd_om startData) (pd_om endData) progress;
     pd_w := interpolateAngle (pd_w startData) (pd_w endData) progress;
     pd_M0 := interpolateAngle (pd_M0 startData) (pd_M0 endData) progress;
     pd_T := pd_T startData + progress * (pd_T endData - pd_T startData) |}.

Local Close Scope R_scope.
Local Open Scope Z_scope.

(** ** Dates *)

(** A date string as the code meets it: [ISODate d] is the calendar date
    [YYYY-MM-DD] that lies [d] days after 1970-01-01, [BadDate s] a string
    for which [new Date(s)] is an Invalid Date. *)
Inductive DateStr :=
  | ISODate (day : Z)
  | BadDate (raw : string).

#[export] Instance DateStr_eq_dec : EqDecision DateStr.
Proof. solve_decision. Defined.

#[export] Instance DateStr_countable : Countable DateStr.
Proof.
  apply (inj_countable'
           (fun d => match d with ISODate z => inl z | BadDate r => inr r end)
           (fun x => match x with inl z => ISODate z | inr r => BadDate r end)).
  intros []; reflexivity.
Defined.

Definition MS_PER_DAY : Z := 86400000.

(** [new Date(s).getTime()]: milliseconds since the epoch, [None] for NaN. *)
Definition newDate (s : DateStr) : option Z :=
  match s with
  | ISODate d => Some (d * MS_PER_DAY)
  | BadDate _ => None
  end.

(** [new Date(t).toISOString().split('T')[0]] *)
Definition toISODate (t : Z) : DateStr := ISODate (t / MS_PER_DAY).

(** Relational operators on [Date] objects compare the time values; a NaN
    operand makes every comparison false. *)
Definition date_le (d1 d2 : option Z) : bool :=
  match d1, d2 with
  | Some t1, Some t2 => t1 <=? t2
  | _, _ => false
  end.

Definition date_lt (d1 d2 : option Z) : bool :=
  match d1, d2 with
  | Some t1, Some t2 => t1 <? t2
  | _, _ => false
  end.

Definition date_ge (d1 d2 : option Z) : bool := date_le d2 d1.
Definition date_gt (d1 d2 : option Z) : bool := date_lt d2 d1.

(** [PlanetDataByDate]: per date, one slot per body; [None] is [null]. *)
Abbreviation Table := (gmap DateStr (list (option PlanetData))).

(** *** The runtime's local calendar *)

(** The code parses and prints dates in UTC ([new Date("YYYY-MM-DD")],
    [toISOString]) but steps them with [d.setDate(d.getDate() + 1)] and
    [d.setDate(d.getDate() - 1)], which move [d] by one calendar day of the
    runtime's local time zone.  The zone belongs to the runtime, not to the
    repository, and is a parameter of the model: [localDayLength t] is the
    number of milliseconds by which [setDate(getDate() + 1)] advances the
    instant [t] (86400000 unless the local clock is changed in between; a
    day step always moves forward), and [previousLocalDay t] is the instant
    that [setDate(getDate() - 1)] gives. *)
Class TimeZone := {
  localDayLength : Z -> positive;
  previousLocalDay : Z -> Z
}.

Definition nextLocalDay {tz : TimeZone} (t : Z) : Z := t + Z.pos (localDayLength t).

(** A zone that keeps one UTC offset throughout, such as UTC itself. *)
#[export] Instance utcZone : TimeZone := {
  localDayLength _ := 86400000%positive;
  previousLocalDay t := t - MS_PER_DAY
}.

(** A zone whose clocks are set back by one hour at the instant
    [transition] (the end of daylight saving time): the local day that
    contains the change lasts 25 hours. *)
Definition clocksSetBack (transition : Z) : TimeZone := {|
  localDayLength t :=
    if (t <? transition) && (transition <=? t + MS_PER_DAY)
    then 90000000%positive else 86400000%positive;
  previousLocalDay t :=
    if (transition <=? t) && (t - MS_PER_DAY <? transition)
    then t - 90000000 else t - MS_PER_DAY
|}.

Section Runtime.
Context {tz : TimeZone}.

(** [while (currentDate <= endDate) { result.push(...); currentDate.setDate(+1) }] *)
Fixpoint datesLoop (fuel : nat) (currentDate endDate : Z) : list DateStr :=
  match fuel with
  | O => []
  | S f =>
      if currentDate <=? endDate
      then toISODate currentDate :: datesLoop f (nextLocalDay currentDate) endDate
      else []
  end.

(** Every turn advances the instant by at least one millisecond, so the
    loop test succeeds at most [endDate - startDate + 1] times; with this
    many turns allowed the loop always ends through its test. *)
Definition datesFuel (startDate endDate : Z) : nat :=
  Z.to_nat (endDate - startDate + 2).

(** ** PlanetDataService.ts *)

Definition PLANET_IDS : list (string * string) :=
  [ ("10", "Sun"); ("199", "Mercury"); ("299", "Venus"); ("399", "Earth");
    ("499", "Mars"); ("599", "Jupiter"); ("699", "Saturn"); ("799", "Uranus");
    ("899", "Neptune") ]%string.

Record PlanetDataMeta := mkMeta {
  lastCleanup : DateStr;
  dataRange : option (DateStr * DateStr)   (* {start, end} *)
}.

(** The two keys of the persistent store.  Values pass through
    [JSON.stringify]/[JSON.parse], which the model leaves out.  [setItem]
    throws when [storage_writable] is false. *)
Record AsyncStorage := mkStorage {
  planet_data_v2 : option Table;
  planet_data_meta_v2 : option PlanetDataMeta;
  storage_writable : bool
}.

Definition getAllStoredData (st : AsyncStorage) : option Table :=
  planet_data_v2 st.

Definition getMetaData (st : AsyncStorage) : option PlanetDataMeta :=
  planet_data_meta_v2 st.

(** [None]: the write threw and the error is passed on. *)
Definition saveAllData (data : Table) (st : AsyncStorage) : option AsyncStorage :=
  if storage_writable st
  then Some (mkStorage (Some data) (planet_data_meta_v2 st) (storage_writable st))
  else None.

Definition setMetaData (meta : PlanetDataMeta) (st : AsyncStorage)
  : option AsyncStorage :=
  if storage_writable st
  then Some (mkStorage (planet_data_v2 st) (Some meta) (storage_writable st))
  else None.

Definition getDatesBetween (startDateStr endDateStr : DateStr) : list DateStr :=
  match newDate startDateStr, newDate endDateStr with
  | Some startDate, Some endDate =>
      datesLoop (datesFuel startDate endDate) startDate endDate
  | _, _ => []
  end.

(** [Array.prototype.findIndex]; [None] stands for [-1]. *)
Fixpoint findIndex {A : Type} (p : A -> bool) (l : list A) : option nat :=
  match l with
  | [] => None
  | a :: r => if p a then Some O else option_map S (findIndex p r)
  end.

(** [arr[i] = v] on a JavaScript array: past the end the array grows, and
    the holes in between are stored as [null] by [JSON.stringify]. *)
Definition js_set {A : Type} (arr : list (option A)) (i : nat) (v : A)
  : list (option A) :=
  if (i <? length arr)%nat
  then <[i := Some v]> arr
  else arr ++ replicate (i - length arr) None ++ [Some v].

(** The property names that every plain object inherits from
    [Object.prototype] (ECMAScript, Annex B included).  For such a key
    [obj[key]] finds the inherited member, a function or an object, when
    [obj] has no property of its own under that name. *)
Definition objectPrototypeNames : list string :=
  [ "constructor"; "__proto__"; "hasOwnProperty"; "isPrototypeOf";
    "propertyIsEnumerable"; "toLocaleString"; "toString"; "valueOf";
    "__defineGetter__"; "__defineSetter__"; "__lookupGetter__";
    "__lookupSetter__" ]%string.

Definition inheritedName (key : string) : bool :=
  existsb (String.eqb key) objectPrototypeNames.

(** A date key that names such a member; a calendar date never does. *)
Definition inheritedDate (date : DateStr) : bool :=
  match date with
  | ISODate _ => false
  | BadDate raw => inheritedName raw
  end.

(** [if (!existingData[date]) existingData[date] = new Array(n).fill(null)].
    When the table has no row of its own under an inherited name, the test
    finds the inherited member and no row is made. *)
Definition ensureRow (existingData : Table) (date : DateStr) : Table :=
  match existingData !! date with
  | Some _ => existingData
  | None =>
      if inheritedDate date then existingData
      else <[date := replicate (length PLANET_IDS) None]> existingData
  end.

(** [existingData[date][index] = data]: written into the row of that date;
    without a row the write lands on the inherited member and the table
    stays as it is. *)
Definition setSlot (existingData : Table) (date : DateStr) (index : nat)
    (data : PlanetData) : Table :=
  match existingData !! date with
  | Some row => <[date := js_set row index data]> existingData
  | None => existingData
  end.

Definition sunData : PlanetData := mkPlanetData 0 0 0 0 0 0 0.

Definition storeForPlanet (planetId : string) (existingData : Table)
    (date : DateStr) (data : PlanetData) : Table :=
  let existingData := ensureRow existingData date in
  match findIndex (fun p => String.eqb (fst p) planetId) PLANET_IDS with
  | Some planetIndex => setSlot existingData date planetIndex data
  | None => existingData
  end.

Inductive FetchResult :=
  | FetchThrows
  | FetchReturns (rows : list (DateStr * PlanetData)).

(** How the promise of an [async] method settles. *)
Inductive Settled := Resolved | Rejected.

Record RangeFetch := mkRangeFetch {
  rf_storage : AsyncStorage;                      (* the store afterwards *)
  rf_calls : list (string * DateStr * DateStr);   (* calls of fetchPlanetData *)
  rf_settled : Settled
}.

Section Service.
(** The ephemeris collaborator [fetchPlanetData(planetId, start, end)]. *)
Variable fetchPlanetData : string -> DateStr -> DateStr -> FetchResult.

(** One turn of [for (const planet of PLANET_IDS)] with its [try/catch]. *)
Definition processPlanet (startDateStr endDateStr : DateStr)
    (dateList : list DateStr)
    (acc : Table * list (string * DateStr * DateStr))
    (planet : string * string)
  : Table * list (string * DateStr * DateStr) :=
  let '(existingData, calls) := acc in
  if String.eqb (fst planet) "10" then
    (fold_left (fun tbl date => storeForPlanet "10" tbl date sunData)
               dateList existingData, calls)
  else
    let calls := calls ++ [(fst planet, startDateStr, endDateStr)] in
    match fetchPlanetData (fst planet) startDateStr endDateStr with
    | FetchThrows => (existingData, calls)
    | FetchReturns planetDataForRange =>
        if (length planetDataForRange =? 0)%nat then (existingData, calls)
        else
          (fold_left (fun tbl r => storeForPlanet (fst planet) tbl (fst r) (snd r))
                     planetDataForRange existingData, calls)
    end.

(** The metadata written at the end of a range fetch. *)
Definition extendMeta (startDateStr endDateStr : DateStr)
    (stored : option PlanetDataMeta) : PlanetDataMeta :=
  let meta :=
    match stored with
    | Some m => m
    | None => mkMeta startDateStr (Some (startDateStr, startDateStr))
    end in
  match dataRange meta with
  | None => mkMeta (lastCleanup meta) (Some (startDateStr, endDateStr))
  | Some (metaStart, metaEnd) =>
      let newStart :=
        if date_lt (newDate startDateStr) (newDate metaStart)
        then startDateStr else metaStart in
      let newEnd :=
        if date_gt (newDate endDateStr) (newDate metaEnd)
        then endDateStr else metaEnd in
      mkMeta (lastCleanup meta) (Some (newStart, newEnd))
  end.

Definition fetchAndStoreDataForRange (startDateStr endDateStr : DateStr)
    (st : AsyncStorage) : RangeFetch :=
  let existingData := default ∅ (getAllStoredData st) in
  let dateList := getDatesBetween startDateStr endDateStr in
  let '(existingData, calls) :=
    fold_left (processPlanet startDateStr endDateStr dateList)
              PLANET_IDS (existingData, []) in
  (* the completeness pass only writes to the console *)
  match saveAllData existingData st with
  | None => mkRangeFetch st calls Rejected
  | Some st1 =>
      let meta := extendMeta startDateStr endDateStr (getMetaData st1) in
      match setMetaData meta st1 with
      | None => mkRangeFetch st1 calls Rejected
      | Some st2 => mkRangeFetch st2 calls Resolved
      end
  end.
End Service.

(** [Object.keys(filteredData).sort()[0]].  Every key that survives the
    cut-off test parses, and calendar dates sort like their day numbers. *)
Definition earliestDate (keys : list DateStr) : option DateStr :=
  fold_right
    (fun k acc =>
       match k, acc with
       | ISODate d, Some (ISODate m) => Some (ISODate (Z.min d m))
       | ISODate d, _ => Some k
       | BadDate _, _ => acc
       end) None keys.

(** The body of [removeDataBeforeDate]; its [catch] swallows a failed
    write, so the method always resolves. *)
Definition removeDataBeforeDate (cutoffDateStr : DateStr) (st : AsyncStorage)
  : AsyncStorage :=
  match getAllStoredData st with
  | None => st
  | Some allData =>
      let cutoff := newDate cutoffDateStr in
      let filteredData : Table :=
        filter (fun kv => date_ge (newDate (fst kv)) cutoff = true) allData in
      match saveAllData filteredData st with
      | None => st
      | Some st1 =>
          match getMetaData st1 with
          | Some (mkMeta cleanup (Some (_, metaEnd))) =>
              let remainingDates := earliestDate (fst <$> map_to_list filteredData) in
              let newStart := default cutoffDateStr remainingDates in
              match setMetaData (mkMeta cleanup (Some (newStart, metaEnd))) st1 with
              | Some st2 => st2
              | None => st1
              end
          | _ => st1
          end
      end
  end.

(** The per-date test of [checkDataAvailability]. *)
Definition rowComplete (allData : Table) (date : DateStr) : bool :=
  match allData !! date with
  | None => false
  | Some row =>
      (length row =? 9)%nat && forallb (fun data => bool_decide (is_Some data)) row
  end.

Definition checkDataAvailability (startDate endDate : DateStr)
    (st : AsyncStorage) : bool :=
  match getAllStoredData st with
  | None => false
  | Some allData =>
      let dateList :=
        match newDate startDate, newDate endDate with
        | Some start, Some end_ => datesLoop (datesFuel start end_) start end_
        | _, _ => []
        end in
      forallb (rowComplete allData) dateList
  end.

(** [getPlanetDataForDate]: the row stored for one date; [null] when no
    table is stored or the table has no row for the date.  For a key with
    [inheritedDate] and no row of its own, [allData[dateStr] || null] is
    the inherited member, which is neither a row nor [null]: the model
    covers the other keys. *)
Definition getPlanetDataForDate (dateStr : DateStr) (st : AsyncStorage)
  : option (list (option PlanetData)) :=
  match getAllStoredData st with
  | None => None
  | Some allData => allData !! dateStr
  end.

(** [getDataAvailabilityRange]: the range recorded in the metadata. *)
Definition getDataAvailabilityRange (st : AsyncStorage)
  : option (DateStr * DateStr) :=
  match getMetaData st with
  | Some meta => dataRange meta
  | None => None
  end.

(** [initializeDataStore] run at wall-clock time [now] (ms): data older
    than yesterday is removed; when the recorded range ends after [now]
    nothing is fetched, otherwise the range from today to two months ahead
    is.  [twoMonthsLater now] is the time value of
    [futureDate.setMonth(futureDate.getMonth() + 2)]; yesterday is
    [previousLocalDay now].  A rejected range fetch is rethrown. *)
Section Initialize.
Variable fetchPlanetData : string -> DateStr -> DateStr -> FetchResult.
Variable twoMonthsLater : Z -> Z.

Definition initializeDataStore (now : Z) (st : AsyncStorage) : RangeFetch :=
  let yesterdayStr := toISODate (previousLocalDay now) in
  let st1 := removeDataBeforeDate yesterdayStr st in
  let currentDateStr := toISODate now in
  let futureDateStr := toISODate (twoMonthsLater now) in
  match getMetaData st1 with
  | Some (mkMeta _ (Some (_, metaEnd))) =>
      if date_gt (newDate metaEnd) (Some now)
      then mkRangeFetch st1 [] Resolved
      else fetchAndStoreDataForRange fetchPlanetData currentDateStr futureDateStr st1
  | _ => fetchAndStoreDataForRange fetchPlanetData currentDateStr futureDateStr st1
  end.
End Initialize.

Local Close Scope Z_scope.
Local Open Scope R_scope.

(** ** CelestialBody.tsx: [AnimationHandler] *)

(** [CelestialBodyConfig]; the colour only matters to the renderer. *)
Record CelestialBodyConfig := mkBody {
  body_name : string;
  body_size : R
}.

(** An entry of [cachedPositionsRef]. *)
Record SpringState := mkSpring {
  target : Position R;
  current : Position R;
  velocity : Position R
}.

(** Calls made to the callbacks passed in by the parent component. *)
Inductive Callback :=
  | onDateChange (date : Z)
  | onTextureChange
  | onPositionUpdate (name : string) (pos : Position R)
  | onFramesRendered (frames : nat).

Record AnimationHandlerProps := mkProps {
  startDate : DateStr;
  endDate : DateStr;
  animationDuration : R;                    (* seconds *)
  planetDataByDate : Table;
  celestialBodies : list CelestialBodyConfig;
  readyToAnimate : bool
}.

(** The component's [useState] cells and [useRef] cells, and
    [isAnimationActive], which the parent owns and the handler writes
    through [setIsAnimationActive].  State written during a frame is read
    back by the next frame. *)
Record HandlerState := mkState {
  currentDate : Z;
  allPlanetPositions : list (string * Position R);  (* keys in insertion order *)
  isAnimationActive : bool;
  isAnimationComplete : bool;
  currentDateRef : Z;
  lastDateUpdateRef : Z;
  frameCountRef : nat;
  hasStartedRef : bool;
  accumulatedMsRef : R;
  cachedPositionsRef : gmap string SpringState
}.

(** [obj[key] = v] and [obj[key]] on a [PlanetPositions] object. *)
Fixpoint assoc_set {A : Type} (key : string) (v : A) (obj : list (string * A))
  : list (string * A) :=
  match obj with
  | [] => [(key, v)]
  | (k, v') :: r =>
      if String.eqb k key then (k, v) :: r else (k, v') :: assoc_set key v r
  end.

Fixpoint assoc_get {A : Type} (key : string) (obj : list (string * A))
  : option A :=
  match obj with
  | [] => None
  | (k, v) :: r => if String.eqb k key then Some v else assoc_get key r
  end.

Definition origin : Position R := mkPosition 0 0 0.

(** [planetDataByDate[date] && planetDataByDate[date][planetIndex]], with
    [null] and [undefined] both read as absent; [planetIndex] is [-1] when
    [findIndex] found nothing. *)
Definition elementsAt (tbl : Table) (date : DateStr) (planetIndex : Z)
  : option PlanetData :=
  match tbl !! date with
  | None => None
  | Some row =>
      if (planetIndex <? 0)%Z then None
      else match row !! Z.to_nat planetIndex with
           | Some (Some data) => Some data
           | _ => None
           end
  end.

Definition calculateInterpolatedPosition (tbl : Table) (planetIndex : Z)
    (exactDate : Z) : option (Position R) :=
  let currentDateStr := toISODate exactDate in
  let nextDateStr := toISODate (nextLocalDay exactDate) in
  match elementsAt tbl currentDateStr planetIndex with
  | None => None
  | Some currentDayData =>
      let currentPos := calculateCelestialPosition currentDayData 0 in
      match elementsAt tbl nextDateStr planetIndex with
      | None => Some currentPos
      | Some nextDayData =>
          if decide (nextDateStr = currentDateStr) then Some currentPos
          else
            let nextPos := calculateCelestialPosition nextDayData 0 in
            (* strings made by toISOString always parse *)
            let startOfDay := default 0%Z (newDate currentDateStr) in
            let endOfDay := default 0%Z (newDate nextDateStr) in
            let progress :=
              IZR (exactDate - startOfDay) / IZR (endOfDay - startOfDay) in
            Some (mkPosition
                    (pos_x currentPos + (pos_x nextPos - pos_x currentPos) * progress)
                    (pos_y currentPos + (pos_y nextPos - pos_y currentPos) * progress)
                    (pos_z currentPos + (pos_z nextPos - pos_z currentPos) * progress))
      end
  end.

Definition transformPlanetPosition (bodyName : string)
    (position earthPosition : Position R) : Position R :=
  transformToGeocentricVisualization bodyName position earthPosition.

Definition earthIndexOf (bodies : list CelestialBodyConfig) : Z :=
  match findIndex (fun body => String.eqb (body_name body) "Earth") bodies with
  | Some n => Z.of_nat n
  | None => (-1)%Z
  end.

(** [newTargetPos] of one turn of [celestialBodies.forEach]. *)
Definition bodyTarget (tbl : Table) (earthIndex : Z) (exactDate : Z)
    (earthOriginalPosition : Position R) (index : nat)
    (body : CelestialBodyConfig) : Position R :=
  let planetResult :=
    if (Z.of_nat index =? earthIndex)%Z
    then Some earthOriginalPosition
    else calculateInterpolatedPosition tbl (Z.of_nat index) exactDate in
  transformPlanetPosition (body_name body)
    (default origin planetResult)      (* planetResult || {x: 0, y: 0, z: 0} *)
    earthOriginalPosition.

(** The spring-damper update of one body.  When the cache entry is created,
    [target] and [current] are one object; the update then adds a zero
    velocity to it, so both keep the value written here.  The cache is a
    plain object: for a body whose name is a member of [Object.prototype]
    and which has no entry of its own, [cachedPositionsRef.current[name]] is
    that member, which is truthy; no entry is created, its [current] is
    [undefined], and reading [current.x] throws a TypeError ([None]). *)
Definition springUpdate (body : CelestialBodyConfig) (deltaTime : R)
    (newTargetPos : Position R) (cache : gmap string SpringState)
  : option (gmap string SpringState * Position R) :=
  let entry :=
    match cache !! body_name body with
    | Some c => Some (mkSpring newTargetPos (current c) (velocity c))
    | None =>
        if inheritedName (body_name body) then None
        else Some (mkSpring newTargetPos newTargetPos origin)
    end in
  match entry with
  | None => None
  | Some cached =>
      let bodySize := body_size body in
      let speedFactor := Rmin (8 / 10) (2 / 10 + bodySize * (15 / 100)) in
      let stiffness :=
        28 / 10 + (if String.eqb (body_name body) "Sun" then 1 else 0) in
      let damping := 8 / 10 - bodySize * (2 / 100) in
      let force (t c : R) := (t - c) * stiffness in
      let vel (v t c : R) := v * damping + force t c * deltaTime * speedFactor in
      let vx := vel (pos_x (velocity cached)) (pos_x (target cached))
                    (pos_x (current cached)) in
      let vy := vel (pos_y (velocity cached)) (pos_y (target cached))
                    (pos_y (current cached)) in
      let vz := vel (pos_z (velocity cached)) (pos_z (target cached))
                    (pos_z (current cached)) in
      let cur := mkPosition (pos_x (current cached) + vx)
                            (pos_y (current cached) + vy)
                            (pos_z (current cached) + vz) in
      Some (<[body_name body := mkSpring (target cached) cur (mkPosition vx vy vz)]>
              cache,
            cur)
  end.

(** [celestialBodies.forEach((body, index) => ...)], threading the cache
    and [newSmoothedPositions]; an exception in one turn ends the loop. *)
Fixpoint forEachBody (tbl : Table) (earthIndex exactDate : Z)
    (earthOriginalPosition : Position R) (deltaTime : R) (index : nat)
    (bodies : list CelestialBodyConfig)
    (acc : gmap string SpringState * list (string * Position R))
  : option (gmap string SpringState * list (string * Position R)) :=
  match bodies with
  | [] => Some acc
  | body :: rest =>
      let newTargetPos :=
        bodyTarget tbl earthIndex exactDate earthOriginalPosition index body in
      match springUpdate body deltaTime newTargetPos (fst acc) with
      | None => None
      | Some (cache, cur) =>
          forEachBody tbl earthIndex exactDate earthOriginalPosition deltaTime
            (S index) rest (cache, assoc_set (body_name body) cur (snd acc))
      end
  end.

(** The [else if (isAnimationComplete)] branch: positions are re-sent. *)
Definition completeFrame (st : HandlerState) : HandlerState * list Callback :=
  if isAnimationComplete st
  then (st, map (fun e => onPositionUpdate (fst e) (snd e)) (allPlanetPositions st))
  else (st, []).

(** The branch taken when [elapsedMs >= totalMs]. *)
Definition finalFrame (end_ : Z) (accumulated : R) (st : HandlerState)
  : HandlerState * list Callback :=
  let finalDate := end_ in
  (mkState finalDate                       (* setCurrentDate(finalDate) *)
           (allPlanetPositions st)          (* prev => ({...prev}) *)
           false                            (* setIsAnimationActive(false) *)
           true                             (* setIsAnimationComplete(true) *)
           finalDate                        (* currentDateRef *)
           (lastDateUpdateRef st) (frameCountRef st)
           true accumulated (cachedPositionsRef st),
   [onDateChange finalDate; onTextureChange]).

(** The rest of the active branch, from [exactDate] on.  Its second
    [elapsedMs >= totalMs] test repeats the first and cannot succeed.
    [None]: the loop over the bodies threw. *)
Definition runningFrame (props : AnimationHandlerProps) (now : Z)
    (deltaTime accumulated : R) (exactDate : Z) (st : HandlerState)
  : option (HandlerState * list Callback) :=
  let throttled := (100 <? now - lastDateUpdateRef st)%Z in
  let earthIndex := earthIndexOf (celestialBodies props) in
  let earthResult :=
    calculateInterpolatedPosition (planetDataByDate props) earthIndex exactDate in
  let earthOriginalPosition := default origin earthResult in
  match forEachBody (planetDataByDate props) earthIndex exactDate
          earthOriginalPosition deltaTime 0 (celestialBodies props)
          (cachedPositionsRef st, []) with
  | None => None
  | Some result =>
      let newSmoothedPositions := snd result in
      let frames := S (frameCountRef st) in
      Some (mkState (if throttled then exactDate else currentDate st)
                    newSmoothedPositions true (isAnimationComplete st)
                    exactDate
                    (if throttled then now else lastDateUpdateRef st)
                    frames true accumulated (fst result),
            (if throttled then [onDateChange exactDate] else [])
            ++ map (fun e => onPositionUpdate (fst e) (snd e)) newSmoothedPositions
            ++ [onFramesRendered frames])
  end.

(** [accumulatedMsRef.current] after this frame's increment. *)
Definition accumulate (deltaTime : R) (st : HandlerState) : R :=
  (if hasStartedRef st then accumulatedMsRef st else 0) + deltaTime * 1000.

(** [elapsedMs]: the accumulated time mapped onto the calendar span, for a
    duration other than zero ([useFrame] treats the division by zero). *)
Definition mappedMs (props : AnimationHandlerProps) (totalMs : Z)
    (accumulated : R) : R :=
  let elapsedFactor := accumulated / (animationDuration props * 1000) in
  Rmin (elapsedFactor * IZR totalMs) (IZR totalMs).

(** One call of the [useFrame] callback at wall-clock time [now] (ms) with
    frame time [delta] (s).  [None]: an exception leaves the callback (with
    an unparseable start or end date [totalMs] is NaN, no guard fires, and
    the interpolator's [toISOString()] throws a RangeError; the loop over
    the bodies throws for a name inherited from [Object.prototype]).  With
    [animationDuration * 1000] equal to zero the quotient [elapsedFactor] is
    [Infinity] when something has accumulated, which ends the playback, and
    [NaN] or [-Infinity] otherwise, which makes the instant an Invalid Date
    and the interpolator throw (the zero is taken to be [+0]).  The optional
    callbacks are taken as supplied. *)
Definition useFrame (props : AnimationHandlerProps) (now : Z) (delta : R)
    (st : HandlerState) : option (HandlerState * list Callback) :=
  if negb (readyToAnimate props) then Some (st, [])
  else
    match newDate (startDate props), newDate (endDate props) with
    | Some start, Some end_ =>
        let totalMs := (end_ - start)%Z in
        if (totalMs <=? 0)%Z then Some (st, [])
        else
          let deltaTime := Rmin delta (1 / 10) in
          if isAnimationActive st then
            let accumulated := accumulate deltaTime st in
            if Req_dec_T (animationDuration props * 1000) 0 then
              if Rgt_dec accumulated 0
              then Some (finalFrame end_ accumulated st)
              else None
            else
              let elapsedMs := mappedMs props totalMs accumulated in
              if Rge_dec elapsedMs (IZR totalMs) then
                Some (finalFrame end_ accumulated st)
              else
                let exactDate := Rtrunc (IZR start + elapsedMs) in
                runningFrame props now deltaTime accumulated exactDate st
          else Some (completeFrame st)
    | _, _ =>
        if isAnimationActive st then None else Some (completeFrame st)
    end.

(** What the render pass hands to a body:
    [allPlanetPositions[body.name] || {x: 0, y: 0, z: 0}], for a name that
    is no member of [Object.prototype] (for such a name the lookup finds the
    inherited member, which is no position). *)
Definition renderedPosition (st : HandlerState) (name : string) : Position R :=
  default origin (assoc_get name (allPlanetPositions st)).

(** The target the running branch would compute at instant [t]. *)
Definition targetAt (props : AnimationHandlerProps) (t : Z) (index : nat)
    (body : CelestialBodyConfig) : Position R :=
  let earthIndex := earthIndexOf (celestialBodies props) in
  let earthOriginalPosition :=
    default origin
      (calculateInterpolatedPosition (planetDataByDate props) earthIndex t) in
  bodyTarget (planetDataByDate props) earthIndex t earthOriginalPosition index body.

End Runtime.

Local Close Scope Z_scope.
Local Open Scope R_scope.

(** ** CelestialBody.tsx: [SimpleCelestialBody] *)

(** The [useFrame] callback of [SimpleCelestialBody].  [bodyRef] is
    [bodyRef.current.position], [None] while the mesh is not mounted;
    [targetPositionRef] is the last [position] prop. *)
Definition bodyFrame (isAnimationActive : bool) (targetPositionRef : Position R)
    (bodyRef : option (Position R)) : option (Position R) :=
  match bodyRef with
  | None => None
  | Some position =>
      let smoothFactor := if negb isAnimationActive then 5 / 10 else 3 / 10 in
      let x := pos_x position
               + (pos_x targetPositionRef - pos_x position) * smoothFactor in
      let y := pos_y position
               + (pos_y targetPositionRef - pos_y position) * smoothFactor in
      let z := pos_z position
               + (pos_z targetPositionRef - pos_z position) * smoothFactor in
      let distanceSquared :=
        (pos_x targetPositionRef - x) ^ 2
        + (pos_y targetPositionRef - y) ^ 2
        + (pos_z targetPositionRef - z) ^ 2 in
      if negb isAnimationActive
         && (if Rlt_dec distanceSquared (1 / 10000) then true else false)
      then Some targetPositionRef
      else Some (mkPosition x y z)
  end.

(** ** api.ts *)

(** The [signs] table of [getZodiacSign]: name and start longitude. *)
Definition signs : list (string * R) :=
  [ ("Aries", 0); ("Taurus", 30); ("Gemini", 60); ("Cancer", 90);
    ("Leo", 120); ("Virgo", 150); ("Libra", 180); ("Scorpio", 210);
    ("Sagittarius", 240); ("Capricorn", 270); ("Aquarius", 300);
    ("Pisces", 330) ]%string.

(** [getZodiacSign]: [signs.find(...)], [signs[0]] when nothing is found,
    and the degree within the sign. *)
Definition getZodiacSign (longitude : R) : string * R :=
  let found :=
    List.find (fun s => (if Rge_dec longitude (snd s) then true else false)
                        && (if Rlt_dec longitude (snd s + 30) then true else false))
              signs in
  let sign := match found with Some s => s | None => ("Aries"%string, 0) end in
  (fst sign, longitude - snd sign).

(* --------------------------------------------------------------------- *)
(** ** Notions used to state the properties                               *)
(* --------------------------------------------------------------------- *)

(** *** Kepler solver *)

(** The value of [E] after [k] turns of the loop body
    [E = M + data.e * Math.sin(E)], started at [E = M]. *)
Fixpoint keplerIterate (M ecc : R) (k : nat) : R :=
  match k with
  | O => M
  | S j => M + ecc * sin (keplerIterate M ecc j)
  end.

(** Some turn among the first [maxIterations] changes [E] by less than the
    tolerance. *)
Definition convergesWithinCap (M ecc : R) : Prop :=
  exists j : nat, (j < maxIterations)%nat /\
    Rabs (keplerIterate M ecc (S j) - keplerIterate M ecc j) < tolerance.

(** A lower bound on the [k]-th step for [M = 0.1], [e = 0.9]. *)
Definition slowStep (k : nat) : R := (243 / 500) ^ k * (243 / 5000).

(** *** Element blender *)

Definition normalisedAngle (x : R) : Prop := -360 < x < 360.

(** Elements whose mean anomaly is a full turn. *)
Definition fullTurn : PlanetData := mkPlanetData 1 0 0 0 0 360 1.

(** *** Animation handler *)

(** Every body is rendered at the target computed for the instant [end_]. *)
Definition snappedToEnd {tz : TimeZone} (props : AnimationHandlerProps) (end_ : Z)
    (st : HandlerState) : Prop :=
  forall index body,
    celestialBodies props !! index = Some body ->
    renderedPosition st (body_name body) = targetAt props end_ index body.

(** A one-day session with two bodies, played in 0.2 s. *)
Definition demoEarth (a : R) : PlanetData :=
  mkPlanetData a 0 0 0 0 0 (36525 / 100).

Definition demoTable : Table :=
  <[ISODate 0 := [Some (demoEarth 100000000); Some sunData]]>
    (<[ISODate 1 := [Some (demoEarth 200000000); Some sunData]]> ∅).

Definition demoBodies : list CelestialBodyConfig :=
  [mkBody "Earth" 1; mkBody "Sun" 2].

Definition demoProps : AnimationHandlerProps :=
  mkProps (ISODate 0) (ISODate 1) (1 / 5) demoTable demoBodies true.

(** The state when playback starts, after the render pass has put Earth
    at the centre. *)
Definition demoStart : HandlerState :=
  mkState 0 [("Earth"%string, origin)] true false 0 0 0 false 0 ∅.

(** The same elements on two consecutive days. *)
Definition steadyTable : Table :=
  <[ISODate 0 := [Some (demoEarth 1)]]>
    (<[ISODate 1 := [Some (demoEarth 1)]]> ∅).






(** A body name that is no member of [Object.prototype], also when
    lower-cased: object lookups by such a name find own properties only. *)
Definition ownName (name : string) : Prop :=
  inheritedName name = false /\ inheritedName (toLowerCase name) = false.

(** A state in the middle of playback: 100 ms accumulated. *)
Definition demoMid : HandlerState :=
  mkState 43200000 [("Earth"%string, origin)] true false 43200000 16 1
          true 100 ∅.

(** *** Frame transform *)

(** [orbitCorrectionMap[bodyName.toLowerCase()] || 1] over the reals. *)
Definition correctionOf (bodyName : string) : R :=
  match lookupCorrection orbitCorrectionMap (toLowerCase bodyName) with
  | Some c => c
  | None => 1
  end.

(** A position moved by the vector [v]. *)
Definition translate (p v : Position R) : Position R :=
  mkPosition (pos_x p + pos_x v) (pos_y p + pos_y v) (pos_z p + pos_z v).

(** *** Body smoothing *)

(** Squared distance between two positions. *)
Definition distanceSquared (p q : Position R) : R :=
  (pos_x q - pos_x p) ^ 2 + (pos_y q - pos_y p) ^ 2 + (pos_z q - pos_z p) ^ 2.

(** The point halfway between a position and its target. *)
Definition halfway (p t : Position R) : Position R :=
  mkPosition (pos_x p + (pos_x t - pos_x p) * (5 / 10))
             (pos_y p + (pos_y t - pos_y p) * (5 / 10))
             (pos_z p + (pos_z t - pos_z p) * (5 / 10)).

(** *** Sequences of frames *)

(** Frames fed to the handler one after the other; each entry is the
    wall-clock time and the frame time of one [useFrame] call.  The state a
    frame writes is the state the next frame reads. *)
Fixpoint runFrames {tz : TimeZone} (props : AnimationHandlerProps)
    (inputs : list (Z * R)) (st : HandlerState) : option HandlerState :=
  match inputs with
  | [] => Some st
  | (now, delta) :: rest =>
      match useFrame props now delta st with
      | None => None
      | Some (st', _) => runFrames props rest st'
      end
  end.

(** The one-day session played in 0.1 s. *)
Definition quickProps : AnimationHandlerProps :=
  mkProps (ISODate 0) (ISODate 1) (1 / 10) demoTable demoBodies true.

Local Close Scope R_scope.
Local Open Scope Z_scope.

(** *** Data service *)

(** The end lies before the start, or one of the strings does not parse. *)
Definition invalidRange (startDateStr endDateStr : DateStr) : Prop :=
  newDate startDateStr = None \/ newDate endDateStr = None
  \/ date_lt (newDate endDateStr) (newDate startDateStr) = true.

(** The promise is rejected and [fetchPlanetData] was never called. *)
Definition rejectedBeforeFetch (run : RangeFetch) : Prop :=
  rf_settled run = Rejected /\ rf_calls run = [].

(** The bodies a range fetch asks the provider for. *)
Definition fetchedIds : list string :=
  ["199"; "299"; "399"; "499"; "599"; "699"; "799"; "899"]%string.

(** Every row has one slot per body. *)
Definition wfTable (tbl : Table) : Prop :=
  forall date row, tbl !! date = Some row -> length row = 9%nat.

Definition wfStorage (st : AsyncStorage) : Prop :=
  forall tbl, planet_data_v2 st = Some tbl -> wfTable tbl.

(** Slot [index] of [date] holds elements. *)
Definition filled (tbl : Table) (date : DateStr) (index : nat) : Prop :=
  exists row data, tbl !! date = Some row /\ row !! index = Some (Some data).

Definition planetIndex (planetId : string) : option nat :=
  findIndex (fun p => String.eqb (fst p) planetId) PLANET_IDS.

(** The fetch for one body over the range [d1, d3] returns elements for
    every date of the range. *)
Definition fetchSucceedsFor
    (fetch : string -> DateStr -> DateStr -> FetchResult) (d1 d3 : Z)
    (planetId : string) : Prop :=
  exists rows,
    fetch planetId (ISODate d1) (ISODate d3) = FetchReturns rows
    /\ forall d, d1 <= d <= d3 -> exists data, (ISODate d, data) ∈ rows.

(** Every per-body fetch for the range succeeds in that sense. *)
Definition fetchSucceeds (fetch : string -> DateStr -> DateStr -> FetchResult)
    (d1 d3 : Z) : Prop :=
  forall planet, planet ∈ PLANET_IDS -> fst planet <> "10"%string ->
    fetchSucceedsFor fetch d1 d3 (fst planet).

(** The calendar dates from [s] to [e], both included. *)
Definition daysBetween (s e : DateStr) : list DateStr :=
  match s, e with
  | ISODate a, ISODate b => ISODate <$> seqZ a (b - a + 1)
  | _, _ => []
  end.

(** A provider that fails for one body and answers every date for the
    others. *)
Definition fetchExcept (failing : string) (planetId : string) (s e : DateStr)
  : FetchResult :=
  if String.eqb planetId failing then FetchThrows
  else FetchReturns ((fun date => (date, sunData)) <$> daysBetween s e).

(** What [removeDataBeforeDate] leaves in the table. *)
Definition keptBy (cutoffDateStr : DateStr) (tbl : Table) : Table :=
  filter (fun kv => date_ge (newDate (fst kv)) (newDate cutoffDateStr) = true) tbl.

Definition emptyStorage : AsyncStorage := mkStorage None None true.

(** A provider that always fails, and one that answers every date asked. *)
Definition failingFetch (planetId : string) (s e : DateStr) : FetchResult :=
  FetchThrows.

Definition completeFetch (planetId : string) (s e : DateStr) : FetchResult :=
  FetchReturns ((fun date => (date, sunData)) <$> daysBetween s e).

(** The zone keeps one UTC offset: every local day lasts 24 hours. *)
Definition fixedOffset {tz : TimeZone} : Prop :=
  forall t, nextLocalDay t = t + MS_PER_DAY /\ previousLocalDay t = t - MS_PER_DAY.

(** New York in the autumn of 2025: the clocks are set back on 2025-11-02
    at 06:00 UTC.  Day 20393 is 2025-11-01. *)
Definition newYorkAutumn2025 : TimeZone :=
  clocksSetBack (20394 * MS_PER_DAY + 6 * 3600000).

(** Slot 0 of [date] holds the Sun's all-zero elements. *)
Definition holdsSun (tbl : Table) (date : DateStr) : Prop :=
  exists row, tbl !! date = Some row /\ row !! 0%nat = Some (Some sunData).

(** A store that holds Sun-only rows for days 10 and 12 and records the
    range from day 10 to day 12. *)
Definition sunRow : list (option PlanetData) := Some sunData :: replicate 8 None.

Definition weekTable : Table :=
  <[ISODate 10 := sunRow]> (<[ISODate 12 := sunRow]> ∅).

Definition weekStorage : AsyncStorage :=
  mkStorage (Some weekTable)
            (Some (mkMeta (ISODate 9) (Some (ISODate 10, ISODate 12)))) true.

Local Close Scope Z_scope.
Local Open Scope R_scope.

(* ===================================================================== *)
(** * Part II: properties                                                 *)
(* ===================================================================== *)

(** ** Frame transform *)

Section FrameTransformFacts.
Context {num : Type} `{Number num}.

Lemma transform_Earth (position earthPosition : Position num) :
  transformToGeocentricVisualization "Earth" position earthPosition
  = mkPosition nzero nzero nzero.
Proof. reflexivity. Qed.

Lemma transform_Sun (position earthPosition : Position num) :
  transformToGeocentricVisualization "Sun" position earthPosition
  = mkPosition (nmul (nneg (pos_x earthPosition)) ORBIT_VISUALIZATION_SCALE)
               nzero
               (nmul (nneg (pos_y earthPosition)) ORBIT_VISUALIZATION_SCALE).
Proof. reflexivity. Qed.
End FrameTransformFacts.

Lemma nzero_R : @nzero R _ = 0.
Proof. unfold nzero; simpl; lra. Qed.

Lemma scale_R : @ORBIT_VISUALIZATION_SCALE R _ = 9 / 100000000.
Proof. reflexivity. Qed.

(** C7.  Whatever the body's own position and whatever the reference
    body's position, in every number domain (reals, or doubles with NaN and
    infinities), the body named 'Earth' is sent to the literal origin; over
    the reals that is the point (0, 0, 0). *)
Theorem C7_earth_is_origin :
  (forall (num : Type) (N : Number num) (position earthPosition : Position num),
      transformToGeocentricVisualization "Earth" position earthPosition
      = mkPosition (nlit 0 1) (nlit 0 1) (nlit 0 1))
  /\ (forall position earthPosition : Position R,
         transformToGeocentricVisualization "Earth" position earthPosition
         = mkPosition 0 0 0).
Proof.
  split.
  - intros; apply transform_Earth.
  - intros; rewrite transform_Earth, nzero_R; reflexivity.
Qed.

(** C8.  For 'Sun' the result is the reference body's position negated and
    multiplied by ORBIT_VISUALIZATION_SCALE, its y coordinate moved to the
    z slot and the vertical slot set to zero:
    (-earth.x * S, 0, -earth.y * S), in every number domain; over the reals
    S is 9e-8. *)
Theorem C8_sun_opposite_earth :
  (forall (num : Type) (N : Number num) (position earthPosition : Position num),
      transformToGeocentricVisualization "Sun" position earthPosition
      = mkPosition (nmul (nneg (pos_x earthPosition)) ORBIT_VISUALIZATION_SCALE)
                   (nlit 0 1)
                   (nmul (nneg (pos_y earthPosition)) ORBIT_VISUALIZATION_SCALE))
  /\ (forall position earthPosition : Position R,
         transformToGeocentricVisualization "Sun" position earthPosition
         = mkPosition (- pos_x earthPosition * (9 / 100000000)) 0
                      (- pos_y earthPosition * (9 / 100000000))).
Proof.
  split.
  - intros; apply transform_Sun.
  - intros; rewrite transform_Sun, nzero_R, scale_R; reflexivity.
Qed.

(** C10.  For 'Earth' and for 'Sun' the result does not depend on the
    body's own heliocentric position: two calls that agree on the reference
    position return the same point, in every number domain, so also when one
    of the positions is made of NaN. *)
Theorem C10_own_position_ignored :
  forall (num : Type) (N : Number num) (bodyName : string)
         (position1 position2 earthPosition : Position num),
    bodyName = "Earth" \/ bodyName = "Sun" ->
    transformToGeocentricVisualization bodyName position1 earthPosition
    = transformToGeocentricVisualization bodyName position2 earthPosition.
Proof.
  intros num N bodyName p1 p2 earth [-> | ->].
  - rewrite !transform_Earth; reflexivity.
  - rewrite !transform_Sun; reflexivity.
Qed.

(** The Sun's stored elements are all zero, so the solver's mean motion is
    [2 * pi / 0]; in binary64 that is an infinity and the mean anomaly
    [0 + inf * 0] is NaN. *)
Lemma sun_mean_anomaly_is_nan :
  PrimFloat.is_nan
    (floatMeanAnomaly (float_of_Z 0) (float_of_Z 0) (float_of_Z 0))
  = true.
Proof. vm_compute. reflexivity. Qed.

(** A use of C10 on doubles: a NaN position against a finite one. *)
Lemma C10_witness_nan :
  ("Sun" = "Earth" \/ "Sun" = "Sun")
  /\ transformToGeocentricVisualization "Sun"
       (mkPosition PrimFloat.nan PrimFloat.nan PrimFloat.nan)
       (mkPosition (float_of_Z 3) (float_of_Z 4) (float_of_Z 5))
     = transformToGeocentricVisualization "Sun"
         (mkPosition (float_of_Z 1) (float_of_Z 2) (float_of_Z 0))
         (mkPosition (float_of_Z 3) (float_of_Z 4) (float_of_Z 5)).
Proof.
  split.
  - right; reflexivity.
  - apply (C10_own_position_ignored PrimFloat.float FloatNumber "Sun").
    right; reflexivity.
Defined.

(** ** Kepler solver *)

Lemma solveKepler_at_rest : solveKepler 0 0 = (0 + 0 * sin 0, 0, 1%nat).
Proof.
  unfold solveKepler, maxIterations, keplerLoop, tolerance.
  destruct (Rgt_dec (Rabs (0 - (0 - 1))) (1 / 1000000)) as [_ | n].
  - destruct (Rgt_dec (Rabs (0 + 0 * sin 0 - 0)) (1 / 1000000)) as [g | _].
    + exfalso. replace (0 + 0 * sin 0 - 0) with 0 in g by ring.
      rewrite Rabs_R0 in g. lra.
    + reflexivity.
  - exfalso. apply n. replace (0 - (0 - 1)) with 1 by ring.
    rewrite Rabs_R1. lra.
Qed.

(** A circular, untilted orbit with zero anomaly puts the body on the
    x axis at distance [a]. *)
Lemma circular_orbit_at_epoch (a T : R) :
  calculateCelestialPosition (mkPlanetData a 0 0 0 0 0 T) 0 = mkPosition a 0 0.
Proof.
  unfold calculateCelestialPosition, meanAnomaly, degToRad. simpl.
  replace (0 * (PI / 180) + 2 * PI / T * 0) with 0 by ring.
  rewrite solveKepler_at_rest. simpl.
  replace (0 + 0 * sin 0) with 0 by ring.
  replace (0 * (PI / 180)) with 0 by ring.
  replace (0 / 2) with 0 by lra.
  replace ((1 + 0) / (1 - 0)) with 1 by lra.
  rewrite sqrt_1, tan_0, Rmult_1_l, atan_0, Rmult_0_r, cos_0, sin_0.
  f_equal; ring.
Qed.

(** C9.  Elements a=1, e=0, i=0, om=0, w=0, M0=0, T=365.25 with
    elapsedDays=0 give exactly the heliocentric position (1, 0, 0). *)
Theorem C9_unit_circular_orbit :
  calculateCelestialPosition (mkPlanetData 1 0 0 0 0 0 (36525 / 100)) 0
  = mkPosition 1 0 0.
Proof. apply circular_orbit_at_epoch. Qed.

(** *** Convergence of the iteration *)

(** Three facts about [sin] and [cos] on [0, 1]. *)
Lemma cos_1_lb : 27 / 50 <= cos 1.
Proof.
  assert (H1 : - PI / 2 <= 1) by (pose proof PI_RGT_0; lra).
  assert (H2 : 1 <= PI / 2) by (pose proof PI2_3_2; lra).
  destruct (COS 1 H1 H2) as [Hlb _].
  eapply Rle_trans; [| exact Hlb].
  unfold cos_lb, cos_approx, cos_term. simpl.
  lra.
Qed.

Lemma sin_lipschitz (p q : R) : Rabs (sin p - sin q) <= Rabs (p - q).
Proof.
  destruct (MVT_abs sin cos q p) as [c [Hc _]].
  - intros; apply derivable_pt_lim_sin.
  - rewrite Hc.
    pose proof (COS_bound c) as [? ?].
    assert (Rabs (cos c) <= 1) by (apply Rabs_le; lra).
    pose proof (Rabs_pos (p - q)). nra.
Qed.

Lemma sin_growth (p q : R) : 0 <= q -> q < p -> p <= 1 ->
  27 / 50 * (p - q) <= sin p - sin q.
Proof.
  intros Hq Hqp Hp.
  destruct (MVT_cor2 sin cos q p Hqp) as [c [Hc [Hc1 Hc2]]].
  - intros; apply derivable_pt_lim_sin.
  - rewrite Hc.
    assert (cos 1 <= cos c).
    { apply cos_decr_1; pose proof PI2_3_2; lra. }
    pose proof cos_1_lb. nra.
Qed.

Section Solver.
Variables M ecc : R.
Let it := keplerIterate M ecc.

(** [prevE = E - 1] makes the first test succeed: the loop always takes
    one turn. *)
Lemma solveKepler_first_turn :
  solveKepler M ecc = keplerLoop 9 M ecc (it 1%nat) (it 0%nat) 1.
Proof.
  unfold solveKepler, maxIterations. simpl.
  destruct (Rgt_dec (Rabs (M - (M - 1))) tolerance) as [_ | n]; [reflexivity |].
  exfalso; apply n. replace (M - (M - 1)) with 1 by ring.
  rewrite Rabs_R1. unfold tolerance. lra.
Qed.

(** The loop leaves at the first turn whose step is within the tolerance,
    or when its budget is used up, whichever comes first. *)
Lemma keplerLoop_exit (b : nat) : forall k : nat,
  exists m : nat,
    (k <= m <= k + b)%nat
    /\ keplerLoop b M ecc (it (S k)) (it k) (S k) = (it (S m), it m, S m)
    /\ (Rabs (it (S m) - it m) <= tolerance \/ m = (k + b)%nat)
    /\ (forall j, (k <= j < m)%nat -> Rabs (it (S j) - it j) > tolerance).
Proof.
  induction b as [| b IH]; intros k.
  - exists k. split; [lia |]. split; [reflexivity |]. split; [right; lia |].
    intros j Hj; lia.
  - simpl. destruct (Rgt_dec (Rabs (it (S k) - it k)) tolerance) as [g | ng].
    + destruct (IH (S k)) as [m [Hm [Hrun [Hexit Hbefore]]]].
      exists m. split; [lia |]. split; [exact Hrun |]. split.
      * destruct Hexit as [? | ->]; [left; assumption | right; lia].
      * intros j Hj. destruct (Nat.eq_dec j k) as [-> | ?]; [exact g |].
        apply Hbefore; lia.
    + exists k. split; [lia |]. split; [reflexivity |]. split.
      * left. apply Rnot_gt_le; exact ng.
      * intros j Hj; lia.
Qed.

(** The map [E |-> M + e sin E] contracts by the factor [e]. *)
Lemma keplerIterate_contracts : 0 <= ecc ->
  forall k, Rabs (it (S k) - it k) <= ecc ^ S k.
Proof.
  intros He. induction k as [| k IH].
  - unfold it; simpl.
    replace (M + ecc * sin M - M) with (ecc * sin M) by ring.
    rewrite Rabs_mult, (Rabs_pos_eq ecc He).
    pose proof (SIN_bound M) as [? ?].
    assert (Rabs (sin M) <= 1) by (apply Rabs_le; lra).
    pose proof (Rabs_pos (sin M)). nra.
  - change (it (S (S k))) with (M + ecc * sin (it (S k))).
    change (it (S k)) with (M + ecc * sin (it k)) at 2.
    replace (M + ecc * sin (it (S k)) - (M + ecc * sin (it k)))
      with (ecc * (sin (it (S k)) - sin (it k))) by ring.
    rewrite Rabs_mult, (Rabs_pos_eq ecc He).
    pose proof (sin_lipschitz (it (S k)) (it k)).
    change (ecc ^ S (S k)) with (ecc * ecc ^ S k).
    apply Rmult_le_compat_l; [exact He |]. lra.
Qed.
End Solver.

Lemma quarter_pow_10 : (1 / 4) ^ 10 < tolerance.
Proof. unfold tolerance. simpl. lra. Qed.

Lemma keplerIterate_low_eccentricity (M ecc : R) :
  0 <= ecc <= 1 / 4 ->
  Rabs (keplerIterate M ecc 10 - keplerIterate M ecc 9) < tolerance.
Proof.
  intros [He0 He1].
  eapply Rle_lt_trans; [apply keplerIterate_contracts; exact He0 |].
  eapply Rle_lt_trans; [| exact quarter_pow_10].
  apply pow_incr. lra.
Qed.

(** C1 (amended).  For every eccentricity e in [0, 0.25] and every mean
    anomaly M in [0, 2 pi), the iteration E <- M + e sin E started at M
    changes E by less than 1e-6 at one of its first 10 turns, and the
    solver's loop leaves after at most 10 turns with its tolerance test
    |E - prevE| <= 1e-6 satisfied. *)
Theorem C1_low_eccentricity_converges (M ecc : R) :
  0 <= ecc <= 1 / 4 ->
  0 <= M < 2 * PI ->
  convergesWithinCap M ecc
  /\ exists E prevE n,
       solveKepler M ecc = (E, prevE, n)
       /\ (1 <= n <= maxIterations)%nat
       /\ Rabs (E - prevE) <= tolerance.
Proof.
  intros He _. pose proof (keplerIterate_low_eccentricity M ecc He) as Hlast.
  split.
  - exists 9%nat. split; [unfold maxIterations; lia | exact Hlast].
  - rewrite solveKepler_first_turn.
    destruct (keplerLoop_exit M ecc 9 0) as [m [Hm [Hrun [Hexit _]]]].
    exists (keplerIterate M ecc (S m)), (keplerIterate M ecc m), (S m).
    split; [exact Hrun |]. split; [unfold maxIterations; lia |].
    destruct Hexit as [? | ->]; [assumption |]. simpl Nat.add. lra.
Qed.

(** For [M = 0.1], [e = 0.9] the iterates climb inside [0.1, 1], and each
    step is at least 0.486 times the one before. *)
Lemma slow_case_invariant (k : nat) :
  1 / 10 <= keplerIterate (1 / 10) (9 / 10) k
  /\ keplerIterate (1 / 10) (9 / 10) (S k) <= 1
  /\ slowStep k
     <= keplerIterate (1 / 10) (9 / 10) (S k) - keplerIterate (1 / 10) (9 / 10) k.
Proof.
  assert (Hpos : forall j, 0 < slowStep j).
  { intros j. unfold slowStep. apply Rmult_lt_0_compat; [apply pow_lt |]; lra. }
  induction k as [| k [IH1 [IH2 IH3]]].
  - simpl. unfold slowStep. simpl.
    pose proof (SIN_bound (1 / 10)) as [_ ?].
    pose proof (sin_growth (1 / 10) 0) as Hg. rewrite sin_0 in Hg.
    repeat split; lra.
  - set (x := keplerIterate (1 / 10) (9 / 10) k) in *.
    set (y := keplerIterate (1 / 10) (9 / 10) (S k)) in *.
    change (keplerIterate (1 / 10) (9 / 10) (S (S k)))
      with (1 / 10 + 9 / 10 * sin y).
    assert (Hy : y = 1 / 10 + 9 / 10 * sin x) by reflexivity.
    pose proof (Hpos k).
    pose proof (SIN_bound y) as [_ ?].
    assert (Hg : 27 / 50 * (y - x) <= sin y - sin x)
      by (apply sin_growth; lra).
    assert (Hs : slowStep (S k) = 243 / 500 * slowStep k)
      by (unfold slowStep; simpl; ring).
    rewrite Hs. repeat split; lra.
Qed.

Lemma slowStep_above_tolerance (j : nat) :
  (j < maxIterations)%nat -> tolerance < slowStep j.
Proof.
  unfold maxIterations, tolerance, slowStep. intros Hj.
  do 10 (destruct j as [| j]; [simpl; lra |]). lia.
Qed.

Lemma slow_case_steps (j : nat) :
  (j < maxIterations)%nat ->
  Rabs (keplerIterate (1 / 10) (9 / 10) (S j) - keplerIterate (1 / 10) (9 / 10) j)
  > tolerance.
Proof.
  intros Hj. destruct (slow_case_invariant j) as [_ [_ H]].
  pose proof (slowStep_above_tolerance j Hj).
  unfold tolerance in *. rewrite Rabs_pos_eq; lra.
Qed.

(** C1 as stated fails at e = 0.9, M = 0.1: each of the first ten turns
    changes E by more than 1e-6, so the loop stops at the cap. *)
Lemma C1_counterexample :
  0 <= 9 / 10 <= 9 / 10
  /\ 0 <= 1 / 10 < 2 * PI
  /\ ~ convergesWithinCap (1 / 10) (9 / 10)
  /\ exists E prevE,
       solveKepler (1 / 10) (9 / 10) = (E, prevE, maxIterations)
       /\ Rabs (E - prevE) > tolerance.
Proof.
  split; [lra |]. split; [pose proof PI2_3_2; lra |]. split.
  - intros [j [Hj Hlt]]. pose proof (slow_case_steps j Hj). lra.
  - rewrite solveKepler_first_turn.
    destruct (keplerLoop_exit (1 / 10) (9 / 10) 9 0) as [m [Hm [Hrun [Hexit _]]]].
    assert (Hm9 : m = 9%nat).
    { destruct Hexit as [Hle | ->]; [| reflexivity].
      assert (m < maxIterations)%nat by (unfold maxIterations; lia).
      pose proof (slow_case_steps m ltac:(assumption)). lra. }
    subst m. eexists _, _. split; [exact Hrun |].
    apply slow_case_steps. unfold maxIterations; lia.
Qed.

Lemma C1_witness :
  0 <= 1 / 5 <= 1 / 4 /\ 0 <= 1 < 2 * PI /\ convergesWithinCap 1 (1 / 5).
Proof.
  assert (H : 0 <= 1 / 5 <= 1 / 4) by lra.
  assert (HM : 0 <= 1 < 2 * PI) by (pose proof PI2_3_2; lra).
  split; [exact H |]. split; [exact HM |].
  exact (proj1 (C1_low_eccentricity_converges 1 (1 / 5) H HM)).
Defined.

(** ** Element blender *)

Lemma Rtrunc_small (x : R) : -1 < x < 1 -> Rtrunc x = 0%Z.
Proof.
  intros [Hlo Hhi]. unfold Rtrunc.
  destruct (Rle_dec 0 x) as [Hx | Hx].
  - apply Zfloor_eq. simpl. lra.
  - apply Zceil_eq. simpl. lra.
Qed.

Lemma js_rem_small (x : R) : normalisedAngle x -> js_rem x 360 = x.
Proof.
  intros [Hlo Hhi]. unfold js_rem.
  rewrite Rtrunc_small by lra. simpl. ring.
Qed.

Lemma js_rem_zero : js_rem 0 360 = 0.
Proof. apply js_rem_small. unfold normalisedAngle. lra. Qed.

Lemma interpolateAngle_same (x t : R) : interpolateAngle x x t = js_rem x 360.
Proof.
  unfold interpolateAngle.
  replace (x - x) with 0 by ring. rewrite js_rem_zero.
  destruct (Rgt_dec 0 180) as [? | _]; [lra |].
  destruct (Rlt_dec 0 (-180)) as [? | _]; [lra |].
  f_equal. ring.
Qed.

(** C5 (amended).  For every set of elements X whose angular fields i, om,
    w and M0 lie strictly between -360 and 360 degrees, and every t (in
    particular every t in [0, 1]), interpolateOrbitalElements(X, X, t) is X,
    field by field. *)
Theorem C5_blend_same_normalised (X : PlanetData) (t : R) :
  normalisedAngle (pd_i X) -> normalisedAngle (pd_om X) ->
  normalisedAngle (pd_w X) -> normalisedAngle (pd_M0 X) ->
  interpolateOrbitalElements X X t = X.
Proof.
  intros Hi Hom Hw HM. destruct X as [a e i om w M0 T]. simpl in *.
  unfold interpolateOrbitalElements. simpl.
  rewrite !interpolateAngle_same, !js_rem_small by assumption.
  f_equal; ring.
Qed.

Lemma js_rem_full_turn : js_rem 360 360 = 0.
Proof.
  unfold js_rem, Rtrunc.
  destruct (Rle_dec 0 (360 / 360)) as [_ | n]; [| exfalso; lra].
  rewrite (Zfloor_eq 1) by (simpl; lra). simpl. ring.
Qed.

(** C5 as stated fails for an angle of a full turn: M0 = 360 comes back
    as 360 % 360 = 0. *)
Lemma C5_counterexample :
  0 <= 1 / 2 <= 1
  /\ pd_M0 (interpolateOrbitalElements fullTurn fullTurn (1 / 2)) = 0
  /\ interpolateOrbitalElements fullTurn fullTurn (1 / 2) <> fullTurn.
Proof.
  assert (HM : pd_M0 (interpolateOrbitalElements fullTurn fullTurn (1 / 2)) = 0).
  { simpl. rewrite interpolateAngle_same. apply js_rem_full_turn. }
  split; [lra |]. split; [exact HM |].
  intros Heq. rewrite Heq in HM. simpl in HM. lra.
Qed.

Lemma C5_witness :
  interpolateOrbitalElements (mkPlanetData 1 (1 / 2) 10 350 (-20) 90 365)
    (mkPlanetData 1 (1 / 2) 10 350 (-20) 90 365) (1 / 2)
  = mkPlanetData 1 (1 / 2) 10 350 (-20) 90 365.
Proof.
  apply C5_blend_same_normalised; unfold normalisedAngle; simpl; lra.
Defined.

Lemma js_rem_minus_340 : js_rem (10 - 350) 360 = -340.
Proof.
  unfold js_rem. rewrite Rtrunc_small by lra. simpl. ring.
Qed.

(** X1.  Angular wrap-around: blending M0 = 350 with M0 = 10 at t = 0.5 goes
    through 360, not through 180, and gives exactly 0. *)
Theorem blend_wraps_through_360 :
  interpolateAngle 350 10 (1 / 2) = 0
  /\ pd_M0 (interpolateOrbitalElements (mkPlanetData 1 0 0 0 0 350 1)
              (mkPlanetData 1 0 0 0 0 10 1) (1 / 2)) = 0.
Proof.
  assert (H : interpolateAngle 350 10 (1 / 2) = 0).
  { unfold interpolateAngle. rewrite js_rem_minus_340.
    destruct (Rgt_dec (-340) 180) as [? | _]; [lra |].
    destruct (Rlt_dec (-340) (-180)) as [_ | ?]; [| lra].
    replace (350 + (-340 + 360) * (1 / 2)) with 360 by lra.
    apply js_rem_full_turn. }
  split; exact H.
Qed.

(** ** Further properties of the orbital code *)

Lemma sin_cos_sq (x : R) : sin x * sin x + cos x * cos x = 1.
Proof. pose proof (sin2_cos2 x) as H. unfold Rsqr in H. exact H. Qed.

(** X17.  Geometry of the Kepler position (over the reals): for a period
    other than zero and an eccentricity in [0, 1), with E the eccentric
    anomaly the loop ends with and r = a (1 - e cos E), the computed point
    has x^2 + y^2 = r^2 and 4 z^2 <= r^2; z is 0 for inclination 0; and the
    distance r lies between a (1 - e) and a (1 + e). *)
Theorem heliocentric_distance (data : PlanetData) (elapsedDays : R) :
  pd_T data <> 0 ->
  0 <= pd_e data < 1 ->
  let p := calculateCelestialPosition data elapsedDays in
  let E := fst (fst (solveKepler (meanAnomaly data elapsedDays) (pd_e data))) in
  let r := pd_a data * (1 - pd_e data * cos E) in
  pos_x p * pos_x p + pos_y p * pos_y p = r * r
  /\ 4 * (pos_z p * pos_z p) <= r * r
  /\ (pd_i data = 0 -> pos_z p = 0)
  /\ (pd_a data * (1 - pd_e data)) * (pd_a data * (1 - pd_e data)) <= r * r
  /\ r * r <= (pd_a data * (1 + pd_e data)) * (pd_a data * (1 + pd_e data)).
Proof.
  intros _ Hecc p E r. unfold p, calculateCelestialPosition. fold E. fold r.
  cbn [pos_x pos_y pos_z].
  set (f := 2 * atan (sqrt ((1 + pd_e data) / (1 - pd_e data)) * tan (E / 2))).
  pose proof (sin_cos_sq f) as Hf.
  pose proof (sin_cos_sq (degToRad (pd_w data))) as Hw.
  pose proof (sin_cos_sq (degToRad (pd_om data))) as Hom.
  pose proof (sin_cos_sq (degToRad (pd_i data))) as Hi.
  set (sf := sin f) in *. set (cf := cos f) in *.
  set (sw := sin (degToRad (pd_w data))) in *.
  set (cw := cos (degToRad (pd_w data))) in *.
  set (so := sin (degToRad (pd_om data))) in *.
  set (co := cos (degToRad (pd_om data))) in *.
  set (si := sin (degToRad (pd_i data))) in *.
  set (ci := cos (degToRad (pd_i data))) in *.
  split; [| split; [| split]].
  - replace ((r * (cw * cf - sw * sf) * co - r * (sw * cf + cw * sf) * so)
             * (r * (cw * cf - sw * sf) * co - r * (sw * cf + cw * sf) * so)
             + (r * (cw * cf - sw * sf) * so + r * (sw * cf + cw * sf) * co)
               * (r * (cw * cf - sw * sf) * so + r * (sw * cf + cw * sf) * co))
      with (r * r * ((sw * sw + cw * cw) * (sf * sf + cf * cf) * (so * so + co * co)))
      by ring.
    rewrite Hw, Hf, Hom. ring.
  - replace (4 * (r * sf * si * ci * (r * sf * si * ci)))
      with (r * r * ((sf * sf) * (4 * (si * si) * (ci * ci)))) by ring.
    assert (H1 : 0 <= sf * sf <= 1) by nra.
    assert (H2 : 0 <= 4 * (si * si) * (ci * ci) <= 1).
    { pose proof (Rle_0_sqr (si * si - ci * ci)) as Hsq. unfold Rsqr in Hsq.
      assert (Hone : (si * si + ci * ci) * (si * si + ci * ci) = 1)
        by (rewrite Hi; ring).
      assert (Hs : 0 <= si * si) by nra. assert (Hc : 0 <= ci * ci) by nra.
      split; [| nra].
      apply Rmult_le_pos; [| exact Hc]. lra. }
    assert (H3 : 0 <= r * r) by nra.
    assert (H4 : sf * sf * (4 * (si * si) * (ci * ci)) <= 1) by nra.
    nra.
  - intros Hzero. unfold si. rewrite Hzero. unfold degToRad.
    rewrite Rmult_0_l, sin_0. ring.
  - assert (He0 : 0 <= pd_e data) by lra.
    assert (He1 : pd_e data <= 1) by lra. clear Hecc.
    pose proof (COS_bound E) as [Hc1 Hc2].
    unfold r. set (a := pd_a data). set (e := pd_e data) in *.
    set (c := cos E) in *.
    assert (Ha : 0 <= a * a) by nra.
    assert (Hu : e * c <= e) by nra.
    assert (Hl : - e <= e * c) by nra.
    assert (H1 : (1 - e) * (1 - e) <= (1 - e * c) * (1 - e * c))
      by (apply Rmult_le_compat; lra).
    assert (H2 : (1 - e * c) * (1 - e * c) <= (1 + e) * (1 + e))
      by (apply Rmult_le_compat; lra).
    split.
    + replace (a * (1 - e) * (a * (1 - e))) with (a * a * ((1 - e) * (1 - e))) by ring.
      replace (a * (1 - e * c) * (a * (1 - e * c)))
        with (a * a * ((1 - e * c) * (1 - e * c))) by ring.
      apply Rmult_le_compat_l; assumption.
    + replace (a * (1 + e) * (a * (1 + e))) with (a * a * ((1 + e) * (1 + e))) by ring.
      replace (a * (1 - e * c) * (a * (1 - e * c)))
        with (a * a * ((1 - e * c) * (1 - e * c))) by ring.
      apply Rmult_le_compat_l; assumption.
Qed.

Lemma heliocentric_distance_witness :
  pos_z (calculateCelestialPosition (demoEarth 1) 0) = 0.
Proof.
  assert (HT : pd_T (demoEarth 1) <> 0) by (cbn; lra).
  assert (He : 0 <= pd_e (demoEarth 1) < 1) by (cbn; lra).
  apply (proj1 (proj2 (proj2 (heliocentric_distance (demoEarth 1) 0 HT He)))).
  reflexivity.
Defined.

(** X18.  Quality of the solver's answer: for e >= 0 and a mean anomaly M
    in [0, 2 pi) the loop runs between 1 and 10 turns, and its result E
    misses Kepler's equation E - e sin E = M by at most e times the last
    step |E - prevE|, hence by at most e * 1e-6 whenever it stops before the
    iteration cap. *)
Theorem solveKepler_residual (M ecc : R) :
  0 <= ecc ->
  0 <= M < 2 * PI ->
  exists E prevE n,
    solveKepler M ecc = (E, prevE, n)
    /\ (1 <= n <= maxIterations)%nat
    /\ E = M + ecc * sin prevE
    /\ Rabs (E - ecc * sin E - M) <= ecc * Rabs (E - prevE)
    /\ ((n < maxIterations)%nat -> Rabs (E - ecc * sin E - M) <= ecc * tolerance).
Proof.
  intros He _. rewrite solveKepler_first_turn.
  destruct (keplerLoop_exit M ecc 9 0) as [m [Hm [Hrun [Hexit _]]]].
  exists (keplerIterate M ecc (S m)), (keplerIterate M ecc m), (S m).
  split; [exact Hrun |]. split; [unfold maxIterations; lia |].
  split; [reflexivity |].
  set (E := keplerIterate M ecc (S m)). set (prevE := keplerIterate M ecc m).
  assert (HE : E = M + ecc * sin prevE) by reflexivity.
  assert (Hres : Rabs (E - ecc * sin E - M) <= ecc * Rabs (E - prevE)).
  { assert (Hd : E - ecc * sin E - M = ecc * (sin prevE - sin E)).
    { transitivity (M + ecc * sin prevE - ecc * sin E - M); [| ring].
      rewrite <- HE. reflexivity. }
    rewrite Hd.
    rewrite Rabs_mult, (Rabs_pos_eq ecc He).
    apply Rmult_le_compat_l; [exact He |].
    rewrite (Rabs_minus_sym E prevE). apply sin_lipschitz. }
  split; [exact Hres |].
  intros Hn. destruct Hexit as [Htol | ->]; [| unfold maxIterations in Hn; lia].
  eapply Rle_trans; [exact Hres |].
  apply Rmult_le_compat_l; assumption.
Qed.

Lemma solveKepler_residual_witness :
  exists E prevE n,
    solveKepler (1 / 10) (9 / 10) = (E, prevE, n)
    /\ (1 <= n <= maxIterations)%nat
    /\ E = 1 / 10 + 9 / 10 * sin prevE
    /\ Rabs (E - 9 / 10 * sin E - 1 / 10) <= 9 / 10 * Rabs (E - prevE)
    /\ ((n < maxIterations)%nat ->
        Rabs (E - 9 / 10 * sin E - 1 / 10) <= 9 / 10 * tolerance).
Proof. apply solveKepler_residual; [| pose proof PI2_3_2]; lra. Defined.

Lemma solveKepler_circular (M : R) : solveKepler M 0 = (M + 0 * sin M, M, 1%nat).
Proof.
  rewrite solveKepler_first_turn. cbn [keplerIterate keplerLoop].
  destruct (Rgt_dec _ _) as [g | _]; [| reflexivity].
  exfalso. replace (M + 0 * sin M - M) with 0 in g by ring.
  rewrite Rabs_R0 in g. unfold tolerance in g. lra.
Qed.

(** X19.  Circular orbits in closed form (over the reals): for a period
    other than zero, e = 0 and a mean anomaly M strictly between -pi and pi
    the position is
    (a cos (w + M + om), a sin (w + M + om), a sin M sin i cos i), the
    angles w, om and i taken in radians. *)
Theorem circular_orbit_position (data : PlanetData) (elapsedDays : R) :
  pd_T data <> 0 ->
  pd_e data = 0 ->
  - PI < meanAnomaly data elapsedDays < PI ->
  let M := meanAnomaly data elapsedDays in
  let W := degToRad (pd_w data) in
  let OM := degToRad (pd_om data) in
  let I := degToRad (pd_i data) in
  calculateCelestialPosition data elapsedDays
  = mkPosition (pd_a data * cos (W + M + OM))
               (pd_a data * sin (W + M + OM))
               (pd_a data * sin M * sin I * cos I).
Proof.
  intros _ He HM M W OM I. unfold calculateCelestialPosition.
  fold M W OM I. rewrite He, solveKepler_circular. cbn [fst].
  replace (M + 0 * sin M) with M by ring.
  replace ((1 + 0) / (1 - 0)) with 1 by lra.
  rewrite sqrt_1, Rmult_1_l.
  rewrite atan_tan by (unfold M in *; lra).
  replace (2 * (M / 2)) with M by lra.
  repeat (rewrite cos_plus || rewrite sin_plus). f_equal; ring.
Qed.

Lemma circular_orbit_position_witness :
  calculateCelestialPosition (demoEarth 1) 0
  = mkPosition
      (1 * cos (degToRad 0 + meanAnomaly (demoEarth 1) 0 + degToRad 0))
      (1 * sin (degToRad 0 + meanAnomaly (demoEarth 1) 0 + degToRad 0))
      (1 * sin (meanAnomaly (demoEarth 1) 0) * sin (degToRad 0)
       * cos (degToRad 0)).
Proof.
  apply (circular_orbit_position (demoEarth 1) 0);
    [cbn; lra | reflexivity |].
  unfold meanAnomaly, degToRad, demoEarth. cbn [pd_M0 pd_T].
  pose proof PI_RGT_0 as Hpi. lra.
Defined.

Lemma correctionOf_bounds (bodyName : string) : 1 <= correctionOf bodyName <= 5.
Proof.
  unfold correctionOf, orbitCorrectionMap. cbn [lookupCorrection].
  repeat (destruct (String.eqb _ (toLowerCase bodyName)); [simpl; lra |]).
  lra.
Qed.

Lemma transform_other (bodyName : string) (p e : Position R) :
  bodyName <> "Earth"%string -> bodyName <> "Sun"%string ->
  transformToGeocentricVisualization bodyName p e
  = mkPosition ((pos_x p - pos_x e) * (9 / 100000000) / correctionOf bodyName)
               ((pos_z p - pos_z e) * (9 / 100000000) / correctionOf bodyName)
               ((pos_y p - pos_y e) * (9 / 100000000) / correctionOf bodyName).
Proof.
  intros HE HS. unfold transformToGeocentricVisualization.
  apply String.eqb_neq in HE, HS. rewrite HE, HS.
  unfold correctionOf.
  destruct (lookupCorrection orbitCorrectionMap (toLowerCase bodyName));
    [reflexivity |].
  assert (Hone : @none_ R _ = 1) by (unfold none_; simpl; lra).
  rewrite Hone. reflexivity.
Qed.

Lemma compressed (d c : R) :
  1 <= c -> Rabs (d * (9 / 100000000) / c) <= Rabs d * (9 / 100000000).
Proof.
  intros Hc. unfold Rdiv at 1. rewrite !Rabs_mult.
  rewrite (Rabs_pos_eq (9 / 100000000)) by lra.
  rewrite (Rabs_pos_eq (/ c)) by (left; apply Rinv_0_lt_compat; lra).
  assert (Hi : / c <= 1).
  { rewrite <- Rinv_1. apply Rinv_le_contravar; lra. }
  assert (H0 : 0 <= Rabs d * (9 / 100000000))
    by (apply Rmult_le_pos; [apply Rabs_pos | lra]).
  nra.
Qed.

(** X20.  Bodies other than Earth and the Sun whose lower-cased name is no
    member of Object.prototype: the displayed point is the offset from the
    reference body times S = 9e-8 divided by the body's correction factor,
    with the y and z axes exchanged; the factor lies between 1 and 5, so
    no displayed coordinate exceeds the scaled offset in absolute value. *)
Theorem planet_offset_is_compressed (bodyName : string) (p e : Position R) :
  bodyName <> "Earth"%string -> bodyName <> "Sun"%string ->
  inheritedName (toLowerCase bodyName) = false ->
  let g := transformToGeocentricVisualization bodyName p e in
  let c := correctionOf bodyName in
  1 <= c <= 5
  /\ g = mkPosition ((pos_x p - pos_x e) * (9 / 100000000) / c)
                    ((pos_z p - pos_z e) * (9 / 100000000) / c)
                    ((pos_y p - pos_y e) * (9 / 100000000) / c)
  /\ Rabs (pos_x g) <= Rabs (pos_x p - pos_x e) * (9 / 100000000)
  /\ Rabs (pos_y g) <= Rabs (pos_z p - pos_z e) * (9 / 100000000)
  /\ Rabs (pos_z g) <= Rabs (pos_y p - pos_y e) * (9 / 100000000).
Proof.
  intros HE HS _ g c. pose proof (correctionOf_bounds bodyName) as Hc. fold c in Hc.
  split; [exact Hc |]. unfold g. rewrite transform_other by assumption.
  fold c. cbn [pos_x pos_y pos_z].
  split; [reflexivity |].
  repeat split; apply compressed; lra.
Qed.

Lemma planet_offset_is_compressed_witness :
  let g := transformToGeocentricVisualization "Jupiter"
             (mkPosition 5 0 0) (mkPosition 1 0 0) in
  let c := correctionOf "Jupiter" in
  1 <= c <= 5
  /\ g = mkPosition ((5 - 1) * (9 / 100000000) / c)
                    ((0 - 0) * (9 / 100000000) / c)
                    ((0 - 0) * (9 / 100000000) / c)
  /\ Rabs (pos_x g) <= Rabs (5 - 1) * (9 / 100000000)
  /\ Rabs (pos_y g) <= Rabs (0 - 0) * (9 / 100000000)
  /\ Rabs (pos_z g) <= Rabs (0 - 0) * (9 / 100000000).
Proof.
  apply (planet_offset_is_compressed "Jupiter" (mkPosition 5 0 0)
           (mkPosition 1 0 0)); [discriminate | discriminate | reflexivity].
Defined.

(** X21.  Translation invariance over the reals: for every body name other
    than 'Sun', moving the body and the reference body by the same vector
    does not change the displayed point. *)
Theorem geocentric_translation_invariant
    (bodyName : string) (p e v : Position R) :
  bodyName <> "Sun"%string ->
  transformToGeocentricVisualization bodyName (translate p v) (translate e v)
  = transformToGeocentricVisualization bodyName p e.
Proof.
  intros HS. destruct (String.eqb_spec bodyName "Earth") as [-> | HE].
  - reflexivity.
  - rewrite !transform_other by assumption. cbn [translate pos_x pos_y pos_z].
    f_equal; f_equal; f_equal; ring.
Qed.

Lemma geocentric_translation_invariant_witness :
  transformToGeocentricVisualization "Mars"
    (translate (mkPosition 2 0 0) (mkPosition 1 1 1))
    (translate (mkPosition 1 0 0) (mkPosition 1 1 1))
  = transformToGeocentricVisualization "Mars" (mkPosition 2 0 0)
      (mkPosition 1 0 0).
Proof. apply geocentric_translation_invariant. discriminate. Defined.

Lemma interpolateAngle_start (a1 a2 : R) :
  normalisedAngle a1 -> interpolateAngle a1 a2 0 = a1.
Proof.
  intros Ha. unfold interpolateAngle.
  rewrite Rmult_0_r, Rplus_0_r. apply js_rem_small. exact Ha.
Qed.

(** X22.  Blending at t = 0: when the angular fields of the start elements
    lie strictly between -360 and 360 degrees, interpolateOrbitalElements
    at progress 0 returns the start elements, whatever the end elements. *)
Theorem blend_at_zero (startData endData : PlanetData) :
  normalisedAngle (pd_i startData) -> normalisedAngle (pd_om startData) ->
  normalisedAngle (pd_w startData) -> normalisedAngle (pd_M0 startData) ->
  interpolateOrbitalElements startData endData 0 = startData.
Proof.
  intros Hi Hom Hw HM. destruct startData as [a e i om w M0 T].
  unfold interpolateOrbitalElements. cbn [pd_a pd_e pd_i pd_om pd_w pd_M0 pd_T] in *.
  rewrite !interpolateAngle_start by assumption.
  f_equal; ring.
Qed.

Lemma blend_at_zero_witness :
  interpolateOrbitalElements (demoEarth 1) (demoEarth 2) 0 = demoEarth 1.
Proof.
  apply blend_at_zero; unfold normalisedAngle; simpl; lra.
Defined.

Local Close Scope R_scope.
Local Open Scope Z_scope.

(** ** Data service *)

(** *** Date lists *)

Lemma toISODate_day (d : Z) : toISODate (d * MS_PER_DAY) = ISODate d.
Proof. unfold toISODate, MS_PER_DAY. f_equal. apply Z.div_mul. lia. Qed.

Lemma nextLocalDay_forward {tz : TimeZone} (t : Z) : t < nextLocalDay t.
Proof. unfold nextLocalDay. lia. Qed.

Lemma nextLocalDay_fixed {tz : TimeZone} (t : Z) :
  fixedOffset -> nextLocalDay t = t + MS_PER_DAY.
Proof. intros Hfixed. apply Hfixed. Qed.

Lemma utcZone_fixedOffset : @fixedOffset utcZone.
Proof. intros t. split; reflexivity. Qed.

Lemma datesLoop_unfold {tz : TimeZone} (n : nat) (currentDate endDate : Z) :
  datesLoop (S n) currentDate endDate
  = if currentDate <=? endDate
    then toISODate currentDate :: datesLoop n (nextLocalDay currentDate) endDate
    else [].
Proof. reflexivity. Qed.

Lemma datesLoop_past {tz : TimeZone} (n : nat) (currentDate endDate : Z) :
  endDate < currentDate -> datesLoop n currentDate endDate = [].
Proof.
  intros Hlt. destruct n as [| n]; [reflexivity |].
  rewrite datesLoop_unfold.
  destruct (Z.leb_spec currentDate endDate); [lia | reflexivity].
Qed.

(** The loop stops because its test fails, not because the fuel is spent:
    once the fuel exceeds the milliseconds left, more fuel gives the same
    list. *)
Lemma datesLoop_enough {tz : TimeZone} (n : nat) :
  forall (m : nat) (currentDate endDate : Z),
    (Z.to_nat (endDate - currentDate + 1) < n)%nat -> (n <= m)%nat ->
    datesLoop m currentDate endDate = datesLoop n currentDate endDate.
Proof.
  induction n as [| n IH]; intros m currentDate endDate Hn Hm; [lia |].
  destruct m as [| m]; [lia |].
  rewrite !datesLoop_unfold.
  destruct (Z.leb_spec currentDate endDate) as [Hle | Hgt]; [| reflexivity].
  f_equal. pose proof (nextLocalDay_forward currentDate) as Hnext.
  apply IH; lia.
Qed.

Lemma datesLoop_fuel_irrelevant {tz : TimeZone} (n : nat) (startDate endDate : Z) :
  (datesFuel startDate endDate <= n)%nat ->
  datesLoop n startDate endDate
  = datesLoop (datesFuel startDate endDate) startDate endDate.
Proof.
  intros Hn. destruct (Z.lt_ge_cases endDate startDate) as [Hlt | Hge].
  - rewrite !datesLoop_past by exact Hlt. reflexivity.
  - apply datesLoop_enough; [unfold datesFuel; lia | exact Hn].
Qed.

(** Every listed date is the UTC date of an instant between the two
    bounds. *)
Lemma elem_of_datesLoop {tz : TimeZone} (n : nat) :
  forall (currentDate endDate : Z) (date : DateStr),
    date ∈ datesLoop n currentDate endDate ->
    exists t, currentDate <= t <= endDate /\ date = toISODate t.
Proof.
  induction n as [| n IH]; intros currentDate endDate date Hin;
    [inversion Hin |].
  rewrite datesLoop_unfold in Hin.
  destruct (Z.leb_spec currentDate endDate) as [Hle | Hgt]; [| inversion Hin].
  apply elem_of_cons in Hin as [-> | Hin].
  - exists currentDate. split; [lia | reflexivity].
  - destruct (IH _ _ _ Hin) as [t [Ht ->]].
    pose proof (nextLocalDay_forward currentDate). exists t. split; [lia | reflexivity].
Qed.

Lemma getDatesBetween_within {tz : TimeZone} (a b : Z) (date : DateStr) :
  date ∈ getDatesBetween (ISODate a) (ISODate b) ->
  exists d, a <= d <= b /\ date = ISODate d.
Proof.
  unfold getDatesBetween. cbn [newDate]. intros Hin.
  apply elem_of_datesLoop in Hin as [t [[Hlo Hhi] ->]].
  exists (t / MS_PER_DAY). split; [| reflexivity].
  unfold MS_PER_DAY in *. split.
  - apply Z.div_le_lower_bound; lia.
  - apply Z.div_le_upper_bound; lia.
Qed.

(** With local days of 24 hours the loop lists the days one by one. *)
Lemma datesLoop_days {tz : TimeZone} (n : nat) : fixedOffset -> forall a b : Z,
  (Z.to_nat (b - a + 1) <= n)%nat ->
  datesLoop n (a * MS_PER_DAY) (b * MS_PER_DAY) = ISODate <$> seqZ a (b - a + 1).
Proof.
  intros Hfixed. induction n as [| n IH]; intros a b Hn.
  - cbn [datesLoop]. rewrite seqZ_nil by lia. reflexivity.
  - rewrite datesLoop_unfold.
    destruct (Z.leb_spec (a * MS_PER_DAY) (b * MS_PER_DAY)) as [Hle | Hgt].
    + assert (a <= b) by (unfold MS_PER_DAY in *; lia).
      rewrite toISODate_day, (nextLocalDay_fixed _ Hfixed).
      replace (a * MS_PER_DAY + MS_PER_DAY) with ((a + 1) * MS_PER_DAY) by ring.
      rewrite IH by lia.
      rewrite (seqZ_cons a (b - a + 1)) by lia.
      rewrite fmap_cons. do 3 f_equal; lia.
    + assert (b < a) by (unfold MS_PER_DAY in *; lia).
      rewrite seqZ_nil by lia. reflexivity.
Qed.

Lemma datesFuel_days (a b : Z) :
  (Z.to_nat (b - a + 1) <= datesFuel (a * MS_PER_DAY) (b * MS_PER_DAY))%nat.
Proof. unfold datesFuel, MS_PER_DAY. lia. Qed.

Lemma getDatesBetween_days {tz : TimeZone} (a b : Z) :
  fixedOffset ->
  getDatesBetween (ISODate a) (ISODate b) = ISODate <$> seqZ a (b - a + 1).
Proof.
  intros Hfixed. unfold getDatesBetween. cbn [newDate].
  apply (datesLoop_days _ Hfixed). apply datesFuel_days.
Qed.

Lemma elem_of_getDatesBetween {tz : TimeZone} (a b d : Z) :
  fixedOffset ->
  ISODate d ∈ getDatesBetween (ISODate a) (ISODate b) <-> a <= d <= b.
Proof.
  intros Hfixed. rewrite (getDatesBetween_days _ _ Hfixed), list_elem_of_fmap. split.
  - intros [x [Heq Hx]]. inversion Heq; subst. apply elem_of_seqZ in Hx. lia.
  - intros Hd. exists d. split; [reflexivity |]. apply elem_of_seqZ. lia.
Qed.

Lemma getDatesBetween_invalid {tz : TimeZone} (s e : DateStr) :
  invalidRange s e -> getDatesBetween s e = [].
Proof.
  unfold invalidRange, getDatesBetween.
  destruct s as [a | r], e as [b | r']; cbn [newDate date_lt];
    intros [Hi | [Hi | Hi]]; try discriminate; try reflexivity.
  apply Z.ltb_lt in Hi. apply datesLoop_past. exact Hi.
Qed.

(** The list starts with the start date. *)
Lemma getDatesBetween_first {tz : TimeZone} (a b : Z) :
  a <= b ->
  exists rest, getDatesBetween (ISODate a) (ISODate b) = ISODate a :: rest.
Proof.
  intros Hab. unfold getDatesBetween. cbn [newDate].
  assert (Hfuel : exists n, datesFuel (a * MS_PER_DAY) (b * MS_PER_DAY) = S n).
  { exists (Z.to_nat (b * MS_PER_DAY - a * MS_PER_DAY + 1)).
    unfold datesFuel, MS_PER_DAY. lia. }
  destruct Hfuel as [n ->]. rewrite datesLoop_unfold.
  destruct (Z.leb_spec (a * MS_PER_DAY) (b * MS_PER_DAY)) as [_ | Hgt];
    [| unfold MS_PER_DAY in Hgt; lia].
  rewrite toISODate_day. eexists. reflexivity.
Qed.

(** A run of the loop that leaves fuel over is the run with any more
    fuel. *)
Lemma datesLoop_stable {tz : TimeZone} (n : nat) :
  forall (m : nat) (currentDate endDate : Z),
    (length (datesLoop n currentDate endDate) < n)%nat -> (n <= m)%nat ->
    datesLoop m currentDate endDate = datesLoop n currentDate endDate.
Proof.
  induction n as [| n IH]; intros m currentDate endDate Hlen Hm;
    [cbn in Hlen; lia |].
  destruct m as [| m]; [lia |].
  rewrite !datesLoop_unfold. rewrite datesLoop_unfold in Hlen.
  destruct (currentDate <=? endDate); [| reflexivity].
  cbn [length] in Hlen. f_equal. apply IH; lia.
Qed.

Lemma datesFuel_ge (startDate endDate : Z) (n : nat) :
  Z.of_nat n <= endDate - startDate + 2 -> (n <= datesFuel startDate endDate)%nat.
Proof. unfold datesFuel. lia. Qed.

Lemma getDatesBetween_short {tz : TimeZone} (a b : Z) (n : nat) :
  (length (datesLoop n (a * MS_PER_DAY) (b * MS_PER_DAY)) < n)%nat ->
  Z.of_nat n <= b * MS_PER_DAY - a * MS_PER_DAY + 2 ->
  getDatesBetween (ISODate a) (ISODate b)
  = datesLoop n (a * MS_PER_DAY) (b * MS_PER_DAY).
Proof.
  intros Hlen Hn. unfold getDatesBetween. cbn [newDate].
  apply datesLoop_stable; [exact Hlen | apply datesFuel_ge; exact Hn].
Qed.

(** New York, 2025-11-01 to 2025-11-05: the local day that holds the
    change of clocks lasts 25 hours, the loop's instants fall one hour
    behind UTC midnight, and the last date is never reached. *)
Lemma newYork_dates_1_5 :
  getDatesBetween (tz := newYorkAutumn2025) (ISODate 20393) (ISODate 20397)
  = ISODate <$> [20393; 20394; 20395; 20396].
Proof.
  rewrite (getDatesBetween_short 20393 20397 6).
  - vm_compute. reflexivity.
  - vm_compute. lia.
  - vm_compute. discriminate.
Qed.

Lemma newYork_dates_3_5 :
  getDatesBetween (tz := newYorkAutumn2025) (ISODate 20395) (ISODate 20397)
  = ISODate <$> [20395; 20396; 20397].
Proof.
  rewrite (getDatesBetween_short 20395 20397 6).
  - vm_compute. reflexivity.
  - vm_compute. lia.
  - vm_compute. discriminate.
Qed.

(** *** Writing the table *)

Lemma wfTable_empty : wfTable ∅.
Proof. intros date row H. rewrite lookup_empty in H. discriminate. Qed.

Lemma js_set_in_range {A : Type} (arr : list (option A)) (i : nat) (v : A) :
  (i < length arr)%nat -> js_set arr i v = <[i := Some v]> arr.
Proof.
  intros Hi. unfold js_set.
  destruct (Nat.ltb_spec i (length arr)); [reflexivity | lia].
Qed.

Lemma findIndex_bound {A : Type} (p : A -> bool) (l : list A) :
  forall i : nat, findIndex p l = Some i -> (i < length l)%nat.
Proof.
  induction l as [| a l IH]; intros i; simpl.
  - discriminate.
  - destruct (p a).
    + intros [= <-]. lia.
    + destruct (findIndex p l) as [j |]; simpl; [| discriminate].
      intros [= <-]. specialize (IH j eq_refl). lia.
Qed.

Lemma planetIndex_bound (planetId : string) (index : nat) :
  planetIndex planetId = Some index -> (index < 9)%nat.
Proof. intros H. apply findIndex_bound in H. exact H. Qed.

Section StoreForPlanet.
Variables (planetId : string) (index : nat).
Hypothesis Hindex : planetIndex planetId = Some index.

Lemma storeForPlanet_inherited (tbl : Table) (date : DateStr)
    (data : PlanetData) :
  tbl !! date = None -> inheritedDate date = true ->
  storeForPlanet planetId tbl date data = tbl.
Proof using Hindex.
  intros Hnone Hinh. unfold storeForPlanet. fold (planetIndex planetId).
  rewrite Hindex. unfold setSlot, ensureRow. rewrite Hnone, Hinh, Hnone.
  reflexivity.
Qed.

Lemma storeForPlanet_lookup (tbl : Table) (date date' : DateStr)
    (data : PlanetData) :
  wfTable tbl ->
  (tbl !! date = None -> inheritedDate date = false) ->
  storeForPlanet planetId tbl date data !! date'
  = if decide (date = date')
    then Some (<[index := Some data]>
                 (default (replicate 9 None) (tbl !! date)))
    else tbl !! date'.
Proof using Hindex.
  intros Hwf Hown. pose proof (planetIndex_bound _ _ Hindex) as Hlt.
  unfold storeForPlanet. fold (planetIndex planetId). rewrite Hindex.
  unfold setSlot, ensureRow.
  destruct (tbl !! date) as [row |] eqn:Hrow.
  - rewrite Hrow. rewrite js_set_in_range by (rewrite (Hwf _ _ Hrow); lia).
    rewrite lookup_insert. reflexivity.
  - rewrite (Hown eq_refl). rewrite lookup_insert_eq.
    rewrite js_set_in_range by (rewrite length_replicate; simpl; lia).
    rewrite insert_insert_eq, lookup_insert. reflexivity.
Qed.

Lemma storeForPlanet_cases (tbl : Table) (date : DateStr) (data : PlanetData) :
  storeForPlanet planetId tbl date data = tbl
  \/ (tbl !! date = None -> inheritedDate date = false).
Proof using Hindex.
  destruct (tbl !! date) as [row |] eqn:Hrow; [right; discriminate |].
  destruct (inheritedDate date) eqn:Hinh; [left | right; reflexivity].
  apply storeForPlanet_inherited; assumption.
Qed.

Lemma storeForPlanet_wf (tbl : Table) (date : DateStr) (data : PlanetData) :
  wfTable tbl -> wfTable (storeForPlanet planetId tbl date data).
Proof using Hindex.
  intros Hwf.
  destruct (storeForPlanet_cases tbl date data) as [-> | Hown]; [exact Hwf |].
  intros date' row. rewrite storeForPlanet_lookup by assumption.
  destruct (decide (date = date')) as [-> | Hne].
  - intros [= <-]. rewrite length_insert.
    destruct (tbl !! date') as [r |] eqn:Hr; simpl.
    + eapply Hwf; eassumption.
    + reflexivity.
  - apply Hwf.
Qed.

Lemma storeForPlanet_fills (tbl : Table) (date : DateStr) (data : PlanetData) :
  wfTable tbl -> inheritedDate date = false ->
  filled (storeForPlanet planetId tbl date data) date index.
Proof using Hindex.
  intros Hwf Hown. pose proof (planetIndex_bound _ _ Hindex) as Hlt.
  eexists _, data. rewrite storeForPlanet_lookup by auto.
  rewrite decide_True by reflexivity. split; [reflexivity |].
  apply list_lookup_insert_eq.
  destruct (tbl !! date) as [r |] eqn:Hr; simpl.
  - rewrite (Hwf _ _ Hr). exact Hlt.
  - exact Hlt.
Qed.

Lemma storeForPlanet_keeps (tbl : Table) (date : DateStr) (data : PlanetData)
    (date' : DateStr) (i : nat) :
  wfTable tbl -> filled tbl date' i ->
  filled (storeForPlanet planetId tbl date data) date' i.
Proof using Hindex.
  intros Hwf Hfilled.
  destruct (storeForPlanet_cases tbl date data) as [-> | Hown];
    [exact Hfilled |].
  destruct Hfilled as [row [d [Hrow Hslot]]].
  unfold filled. rewrite storeForPlanet_lookup by assumption.
  destruct (decide (date = date')) as [-> | Hne].
  - rewrite Hrow. simpl.
    destruct (decide (index = i)) as [-> | Hi].
    + eexists _, data. split; [reflexivity |].
      apply list_lookup_insert_eq. eapply lookup_lt_Some; eassumption.
    + eexists _, d. split; [reflexivity |].
      rewrite list_lookup_insert_ne by assumption. exact Hslot.
  - eexists _, d. split; eassumption.
Qed.

(** Storing a whole list of (date, elements) pairs for one planet. *)
Lemma storeRows (rows : list (DateStr * PlanetData)) : forall tbl : Table,
  wfTable tbl ->
  let tbl' := fold_left (fun t r => storeForPlanet planetId t (fst r) (snd r))
                        rows tbl in
  wfTable tbl'
  /\ (forall date i, filled tbl date i -> filled tbl' date i)
  /\ (forall date data, (date, data) ∈ rows -> inheritedDate date = false ->
                        filled tbl' date index).
Proof using Hindex.
  induction rows as [| [date data] rows IH]; intros tbl Hwf; simpl.
  - split; [assumption |]. split; [auto |]. intros ? ? Hin. inversion Hin.
  - pose proof (storeForPlanet_wf tbl date data Hwf) as Hwf1.
    destruct (IH _ Hwf1) as [Hwf' [Hkeep Hnew]].
    split; [assumption |]. split.
    + intros date' i Hf. apply Hkeep, storeForPlanet_keeps; assumption.
    + intros date' data' Hin Hown.
      apply elem_of_cons in Hin as [[= -> ->] | Hin].
      * apply Hkeep, storeForPlanet_fills; assumption.
      * eapply Hnew; eassumption.
Qed.
End StoreForPlanet.

Lemma planetIndex_defined (planet : string * string) :
  planet ∈ PLANET_IDS -> exists index, planetIndex (fst planet) = Some index.
Proof.
  unfold PLANET_IDS. intros H.
  repeat (apply elem_of_cons in H as [-> | H]; [eexists; reflexivity |]).
  inversion H.
Qed.

Lemma planetIndex_onto (index : nat) :
  (index < 9)%nat ->
  exists planet, planet ∈ PLANET_IDS /\ planetIndex (fst planet) = Some index.
Proof.
  intros H. destruct (PLANET_IDS !! index) as [planet |] eqn:Hp.
  - exists planet. split; [eapply list_elem_of_lookup_2; eassumption |].
    do 9 (destruct index as [| index]; [injection Hp as <-; reflexivity |]).
    lia.
  - apply lookup_ge_None in Hp. simpl in Hp. lia.
Qed.

Lemma fold_dates_as_rows (planetId : string) (data : PlanetData)
    (dates : list DateStr) : forall tbl : Table,
  fold_left (fun t date => storeForPlanet planetId t date data) dates tbl
  = fold_left (fun t r => storeForPlanet planetId t (fst r) (snd r))
      ((fun date => (date, data)) <$> dates) tbl.
Proof.
  induction dates as [| date dates IH]; intros tbl; simpl; [reflexivity |].
  apply IH.
Qed.

Section RangeFetch.
Context {tz : TimeZone}.
Variable fetch : string -> DateStr -> DateStr -> FetchResult.
Variables d1 d3 : Z.

Let dateList := getDatesBetween (ISODate d1) (ISODate d3).
Let step := processPlanet fetch (ISODate d1) (ISODate d3) dateList.

(** One turn of the planet loop keeps the table well formed and keeps what
    was stored; it fills the Sun's slot on every date of the date list, and
    another planet's slot on every date of the range when its fetch
    succeeds. *)
Lemma processPlanet_fills (planet : string * string) (index : nat)
    (tbl : Table) (calls : list (string * DateStr * DateStr)) :
  planet ∈ PLANET_IDS -> planetIndex (fst planet) = Some index ->
  wfTable tbl ->
  wfTable (fst (step (tbl, calls) planet))
  /\ (forall date i, filled tbl date i ->
                     filled (fst (step (tbl, calls) planet)) date i)
  /\ (forall d,
        (fst planet = "10"%string /\ ISODate d ∈ dateList)
        \/ (fst planet <> "10"%string
            /\ fetchSucceedsFor fetch d1 d3 (fst planet) /\ d1 <= d <= d3) ->
        filled (fst (step (tbl, calls) planet)) (ISODate d) index).
Proof.
  intros Hin Hindex Hwf. unfold step, processPlanet.
  destruct (String.eqb (fst planet) "10") eqn:Hsun.
  - apply String.eqb_eq in Hsun. rewrite Hsun in Hindex. simpl fst.
    rewrite fold_dates_as_rows.
    destruct (storeRows "10" index Hindex
                ((fun date => (date, sunData)) <$> dateList) tbl Hwf)
      as [Hwf' [Hkeep Hnew]].
    split; [assumption |]. split; [assumption |].
    intros d [[_ Hd] | [Hne _]]; [| contradiction].
    apply (Hnew (ISODate d) sunData); [| reflexivity].
    apply list_elem_of_fmap. exists (ISODate d). split; [reflexivity |].
    exact Hd.
  - apply String.eqb_neq in Hsun.
    destruct (fetch (fst planet) (ISODate d1) (ISODate d3)) as [| rows] eqn:Hres.
    + simpl fst. split; [assumption |]. split; [auto |].
      intros d [[Hs _] | [_ [[rows [Hrows _]] _]]]; [contradiction | congruence].
    + destruct (Nat.eqb_spec (length rows) 0) as [Hlen | Hlen]; simpl fst.
      * split; [assumption |]. split; [auto |].
        intros d [[Hs _] | [_ [[rows' [Hrows Hcover]] Hd]]]; [contradiction |].
        rewrite Hres in Hrows. injection Hrows as <-.
        destruct (Hcover d Hd) as [data Hdata].
        destruct rows; [inversion Hdata | discriminate].
      * destruct (storeRows (fst planet) index Hindex rows tbl Hwf)
          as [Hwf' [Hkeep Hnew]].
        split; [assumption |]. split; [assumption |].
        intros d [[Hs _] | [_ [[rows' [Hrows Hcover]] Hd]]]; [contradiction |].
        rewrite Hres in Hrows. injection Hrows as <-.
        destruct (Hcover d Hd) as [data Hdata].
        eapply Hnew; [eassumption | reflexivity].
Qed.

Lemma processPlanets_fill (planets : list (string * string)) :
  forall acc : Table * list (string * DateStr * DateStr),
    (forall planet, planet ∈ planets -> planet ∈ PLANET_IDS) ->
    wfTable (fst acc) ->
    wfTable (fst (fold_left step planets acc))
    /\ (forall date i, filled (fst acc) date i ->
                       filled (fst (fold_left step planets acc)) date i)
    /\ (forall planet index d,
           planet ∈ planets -> planetIndex (fst planet) = Some index ->
           (fst planet = "10"%string /\ ISODate d ∈ dateList)
           \/ (fst planet <> "10"%string
               /\ fetchSucceedsFor fetch d1 d3 (fst planet) /\ d1 <= d <= d3) ->
           filled (fst (fold_left step planets acc)) (ISODate d) index).
Proof.
  induction planets as [| planet planets IH]; intros [tbl calls] Hsub Hwf;
    cbn [fold_left].
  - split; [assumption |]. split; [auto |]. intros ? ? ? H. inversion H.
  - assert (Hin : planet ∈ PLANET_IDS) by (apply Hsub; left).
    destruct (planetIndex_defined planet Hin) as [index0 Hindex0].
    destruct (processPlanet_fills planet index0 tbl calls Hin Hindex0 Hwf)
      as [Hwf1 [Hkeep1 Hnew1]].
    destruct (step (tbl, calls) planet) as [tbl1 calls1] eqn:Hstep.
    simpl in Hwf1, Hkeep1, Hnew1.
    destruct (IH (tbl1, calls1)) as [Hwf' [Hkeep Hnew]].
    { intros p Hp. apply Hsub. right. exact Hp. }
    { exact Hwf1. }
    simpl in Hkeep.
    split; [assumption |]. split; [auto |].
    intros p index d Hp Hindex Hok.
    apply elem_of_cons in Hp as [-> | Hp].
    + rewrite Hindex0 in Hindex. injection Hindex as <-.
      apply Hkeep, Hnew1; assumption.
    + eapply Hnew; eassumption.
Qed.
End RangeFetch.

Lemma rowComplete_filled (tbl : Table) (date : DateStr) :
  wfTable tbl -> (forall i, (i < 9)%nat -> filled tbl date i) ->
  rowComplete tbl date = true.
Proof.
  intros Hwf Hall. unfold rowComplete.
  destruct (Hall 0%nat ltac:(lia)) as [row [_ [Hrow _]]]. rewrite Hrow.
  pose proof (Hwf _ _ Hrow) as Hlen. rewrite Hlen. simpl.
  apply forallb_forall. intros x Hx.
  apply list_elem_of_In, list_elem_of_lookup in Hx as [i Hi].
  assert (i < 9)%nat as Hlt by (rewrite <- Hlen; eapply lookup_lt_Some; eassumption).
  destruct (Hall i Hlt) as [row' [data [Hrow' Hslot]]].
  rewrite Hrow in Hrow'. injection Hrow' as <-.
  rewrite Hi in Hslot. injection Hslot as ->.
  apply bool_decide_eq_true. eexists; reflexivity.
Qed.

Lemma rowComplete_lookup (tbl tbl' : Table) (date : DateStr) :
  tbl !! date = tbl' !! date -> rowComplete tbl date = rowComplete tbl' date.
Proof. unfold rowComplete. intros ->. reflexivity. Qed.

Lemma checkDataAvailability_dates {tz : TimeZone} (s e : DateStr)
    (st : AsyncStorage) (tbl : Table) :
  planet_data_v2 st = Some tbl ->
  checkDataAvailability s e st
  = forallb (rowComplete tbl) (getDatesBetween s e).
Proof.
  intros Hst. unfold checkDataAvailability, getAllStoredData, getDatesBetween.
  rewrite Hst. reflexivity.
Qed.

Lemma checkDataAvailability_days {tz : TimeZone} (a b : Z) (st : AsyncStorage)
    (tbl : Table) :
  fixedOffset ->
  planet_data_v2 st = Some tbl ->
  checkDataAvailability (ISODate a) (ISODate b) st
  = forallb (rowComplete tbl) (ISODate <$> seqZ a (b - a + 1)).
Proof.
  intros Hfixed Hst. rewrite (checkDataAvailability_dates _ _ _ tbl Hst).
  rewrite getDatesBetween_days by exact Hfixed. reflexivity.
Qed.

Lemma removeDataBeforeDate_data (cutoffDateStr : DateStr) (st : AsyncStorage)
    (tbl : Table) :
  storage_writable st = true -> planet_data_v2 st = Some tbl ->
  planet_data_v2 (removeDataBeforeDate cutoffDateStr st)
  = Some (keptBy cutoffDateStr tbl).
Proof.
  intros Hw Hst. unfold removeDataBeforeDate, getAllStoredData, saveAllData,
    getMetaData, setMetaData. rewrite Hst, Hw. simpl.
  destruct (planet_data_meta_v2 st) as [[cleanup [[metaStart metaEnd] |]] |];
    reflexivity.
Qed.

Lemma keptBy_lookup_day (d2 d : Z) (tbl : Table) :
  keptBy (ISODate d2) tbl !! ISODate d
  = if decide (d2 <= d) then tbl !! ISODate d else None.
Proof.
  unfold keptBy.
  destruct (decide (d2 <= d)) as [Hle | Hgt].
  - destruct (tbl !! ISODate d) as [row |] eqn:Hrow.
    + apply map_lookup_filter_Some. split; [assumption |].
      simpl. apply Z.leb_le. unfold MS_PER_DAY. lia.
    + apply map_lookup_filter_None. left. assumption.
  - apply map_lookup_filter_None. right. intros row _. simpl.
    intros H. apply Z.leb_le in H. unfold MS_PER_DAY in H. lia.
Qed.

Section RangeFetchResult.
Context {tz : TimeZone}.
Variable fetch : string -> DateStr -> DateStr -> FetchResult.
Variables (startDateStr endDateStr : DateStr) (st : AsyncStorage).

Let processed :=
  fold_left (processPlanet fetch startDateStr endDateStr
               (getDatesBetween startDateStr endDateStr))
            PLANET_IDS (default ∅ (planet_data_v2 st), []).

Lemma fetchAndStore_calls :
  rf_calls (fetchAndStoreDataForRange fetch startDateStr endDateStr st)
  = snd processed.
Proof.
  unfold fetchAndStoreDataForRange, getAllStoredData. fold processed.
  destruct processed as [tbl calls].
  unfold saveAllData, setMetaData, getMetaData.
  destruct (storage_writable st) eqn:Hw; simpl; rewrite ?Hw; reflexivity.
Qed.

Lemma fetchAndStore_settled :
  rf_settled (fetchAndStoreDataForRange fetch startDateStr endDateStr st)
  = if storage_writable st then Resolved else Rejected.
Proof.
  unfold fetchAndStoreDataForRange, getAllStoredData. fold processed.
  destruct processed as [tbl calls].
  unfold saveAllData, setMetaData, getMetaData.
  destruct (storage_writable st) eqn:Hw; simpl; rewrite ?Hw; reflexivity.
Qed.

Lemma fetchAndStore_data :
  storage_writable st = true ->
  planet_data_v2
    (rf_storage (fetchAndStoreDataForRange fetch startDateStr endDateStr st))
  = Some (fst processed)
  /\ storage_writable
       (rf_storage (fetchAndStoreDataForRange fetch startDateStr endDateStr st))
     = true.
Proof.
  intros Hw.
  unfold fetchAndStoreDataForRange, getAllStoredData. fold processed.
  destruct processed as [tbl calls].
  unfold saveAllData, setMetaData, getMetaData.
  rewrite Hw. simpl. rewrite ?Hw. simpl. split; reflexivity.
Qed.
End RangeFetchResult.

Lemma processPlanets_calls (fetch : string -> DateStr -> DateStr -> FetchResult)
    (s e : DateStr) (dateList : list DateStr) (planets : list (string * string)) :
  forall acc : Table * list (string * DateStr * DateStr),
    snd (fold_left (processPlanet fetch s e dateList) planets acc)
    = snd acc
      ++ ((fun planet => (fst planet, s, e))
            <$> List.filter (fun planet => negb (String.eqb (fst planet) "10"))
                            planets).
Proof.
  induction planets as [| planet planets IH]; intros [tbl calls]; cbn [fold_left].
  - simpl. rewrite app_nil_r. reflexivity.
  - rewrite IH. cbn [List.filter]. unfold processPlanet.
    destruct (String.eqb (fst planet) "10"); simpl negb; cbn iota.
    + reflexivity.
    + destruct (fetch (fst planet) s e) as [| rows];
        [| destruct (length rows =? 0)%nat];
        simpl snd; rewrite fmap_cons, <- app_assoc; reflexivity.
Qed.

Lemma fetchAndStore_calls_all {tz : TimeZone} (fetch : string -> DateStr -> DateStr -> FetchResult)
    (s e : DateStr) (st : AsyncStorage) :
  rf_calls (fetchAndStoreDataForRange fetch s e st)
  = (fun planetId => (planetId, s, e)) <$> fetchedIds.
Proof. rewrite fetchAndStore_calls, processPlanets_calls. reflexivity. Qed.

(** C2 (amended).  For an invalid range (end before start, or a date that
    does not parse) the date list is empty, yet the range fetch does not
    reject the request: it calls fetchPlanetData once for each of the eight
    bodies other than the Sun, with the strings it was given, and its
    promise is resolved exactly when the storage writes succeed. *)
Theorem C2_invalid_range_still_fetches {tz : TimeZone}
    (fetch : string -> DateStr -> DateStr -> FetchResult)
    (startDateStr endDateStr : DateStr) (st : AsyncStorage) :
  invalidRange startDateStr endDateStr ->
  let run := fetchAndStoreDataForRange fetch startDateStr endDateStr st in
  getDatesBetween startDateStr endDateStr = []
  /\ rf_calls run
     = (fun planetId => (planetId, startDateStr, endDateStr)) <$> fetchedIds
  /\ (rf_settled run = Resolved <-> storage_writable st = true).
Proof.
  intros Hinv run. split; [apply getDatesBetween_invalid; exact Hinv |].
  split; [apply fetchAndStore_calls_all |].
  unfold run. rewrite fetchAndStore_settled.
  destruct (storage_writable st); split; intros; try reflexivity; discriminate.
Qed.

(** C2 as stated fails: with a working store the promise is resolved, for
    a reversed range and for an unparseable start date alike. *)
Lemma C2_counterexample :
  invalidRange (ISODate 13) (ISODate 10)
  /\ ~ rejectedBeforeFetch
         (fetchAndStoreDataForRange failingFetch (ISODate 13) (ISODate 10)
            emptyStorage)
  /\ invalidRange (BadDate "soon") (ISODate 10)
  /\ ~ rejectedBeforeFetch
         (fetchAndStoreDataForRange failingFetch (BadDate "soon") (ISODate 10)
            emptyStorage).
Proof.
  split; [right; right; reflexivity |]. split.
  - intros [Hs _]. rewrite fetchAndStore_settled in Hs. discriminate.
  - split; [left; reflexivity |].
    intros [Hs _]. rewrite fetchAndStore_settled in Hs. discriminate.
Qed.

Lemma C2_witness :
  invalidRange (ISODate 13) (ISODate 10)
  /\ rf_calls (fetchAndStoreDataForRange failingFetch (ISODate 13) (ISODate 10)
                 emptyStorage)
     = (fun planetId => (planetId, ISODate 13, ISODate 10)) <$> fetchedIds.
Proof.
  assert (H : invalidRange (ISODate 13) (ISODate 10))
    by (right; right; reflexivity).
  split; [exact H |].
  exact (proj1 (proj2 (C2_invalid_range_still_fetches failingFetch
                         (ISODate 13) (ISODate 10) emptyStorage H))).
Defined.

(** X31.  Extend, prune, check: starting from a writable store whose rows
    have nine slots, if the range fetch for [d1, d3] gets elements from
    every per-body fetch for every date of the range, and data before d2 is
    then removed, with d1 < d2 < d3, then checkDataAvailability(d1, d2) is
    false in every time zone, and checkDataAvailability(d2, d3) is true
    where the local days all last 24 hours. *)
Theorem extend_then_prune {tz : TimeZone}
    (fetch : string -> DateStr -> DateStr -> FetchResult)
    (st : AsyncStorage) (d1 d2 d3 : Z) :
  storage_writable st = true ->
  wfStorage st ->
  fetchSucceeds fetch d1 d3 ->
  d1 < d2 < d3 ->
  let run := fetchAndStoreDataForRange fetch (ISODate d1) (ISODate d3) st in
  let st' := removeDataBeforeDate (ISODate d2) (rf_storage run) in
  rf_settled run = Resolved
  /\ (fixedOffset -> checkDataAvailability (ISODate d2) (ISODate d3) st' = true)
  /\ checkDataAvailability (ISODate d1) (ISODate d2) st' = false.
Proof.
  intros Hw Hwf Hfetch Hd run st'.
  destruct (fetchAndStore_data fetch (ISODate d1) (ISODate d3) st Hw)
    as [Hdata Hw'].
  fold run in Hdata, Hw'.
  set (tbl := fst (fold_left
                (processPlanet fetch (ISODate d1) (ISODate d3)
                   (getDatesBetween (ISODate d1) (ISODate d3)))
                PLANET_IDS (default ∅ (planet_data_v2 st), []))) in *.
  assert (Hwf0 : wfTable (default ∅ (planet_data_v2 st))).
  { destruct (planet_data_v2 st) as [t |] eqn:Ht; simpl.
    - apply Hwf. exact Ht.
    - apply wfTable_empty. }
  destruct (processPlanets_fill fetch d1 d3 PLANET_IDS
              (default ∅ (planet_data_v2 st), []) ltac:(auto) Hwf0)
    as [Hwf' [_ Hfill]].
  fold tbl in Hwf', Hfill.
  assert (Hcomplete : fixedOffset ->
                      forall d, d1 <= d <= d3 -> rowComplete tbl (ISODate d) = true).
  { intros Hfixed d Hdr. apply rowComplete_filled; [exact Hwf' |].
    intros i Hi. destruct (planetIndex_onto i Hi) as [planet [Hin Hindex]].
    apply (Hfill planet i d Hin Hindex).
    destruct (String.eqb_spec (fst planet) "10") as [Hs | Hs].
    - left. split; [exact Hs |]. apply elem_of_getDatesBetween; assumption.
    - right. split; [exact Hs |]. split; [apply Hfetch; assumption | exact Hdr]. }
  pose proof (removeDataBeforeDate_data (ISODate d2) (rf_storage run) tbl Hw' Hdata)
    as Hkept.
  fold st' in Hkept.
  split; [unfold run; rewrite fetchAndStore_settled, Hw; reflexivity |]. split.
  - intros Hfixed.
    rewrite (checkDataAvailability_days d2 d3 st' _ Hfixed Hkept).
    apply forallb_forall. intros date Hin.
    apply list_elem_of_In, list_elem_of_fmap in Hin as [d [-> Hd']].
    apply elem_of_seqZ in Hd'.
    rewrite (rowComplete_lookup _ tbl).
    + apply (Hcomplete Hfixed). lia.
    + rewrite keptBy_lookup_day. apply decide_True. lia.
  - rewrite (checkDataAvailability_dates _ _ st' _ Hkept).
    destruct (getDatesBetween_first d1 d2 ltac:(lia)) as [rest ->].
    cbn [forallb]. unfold rowComplete at 1.
    rewrite keptBy_lookup_day, decide_False by lia. reflexivity.
Qed.

Lemma completeFetch_succeeds (d1 d3 : Z) : fetchSucceeds completeFetch d1 d3.
Proof.
  intros planet _ _. eexists. split; [reflexivity |].
  intros d Hd. exists sunData. apply list_elem_of_fmap.
  exists (ISODate d). split; [reflexivity |].
  cbn [daysBetween]. apply list_elem_of_fmap.
  exists d. split; [reflexivity |]. apply elem_of_seqZ. lia.
Qed.

Lemma extend_then_prune_witness :
  rf_settled (fetchAndStoreDataForRange completeFetch
                (ISODate 10) (ISODate 14) emptyStorage) = Resolved
  /\ checkDataAvailability (ISODate 12) (ISODate 14)
    (removeDataBeforeDate (ISODate 12)
       (rf_storage (fetchAndStoreDataForRange completeFetch
                      (ISODate 10) (ISODate 14) emptyStorage))) = true
  /\ checkDataAvailability (ISODate 10) (ISODate 12)
       (removeDataBeforeDate (ISODate 12)
          (rf_storage (fetchAndStoreDataForRange completeFetch
                         (ISODate 10) (ISODate 14) emptyStorage))) = false.
Proof.
  destruct (extend_then_prune completeFetch emptyStorage 10 12 14)
    as [Hsettled [Hlater Hearlier]].
  - reflexivity.
  - intros tbl H. discriminate H.
  - apply completeFetch_succeeds.
  - lia.
  - split; [exact Hsettled |].
    split; [exact (Hlater utcZone_fixedOffset) | exact Hearlier].
Defined.

(** C4.  The claim fails where a local day lasts 25 hours.  In New York,
    with d1 = 2025-11-01, d2 = 2025-11-03, d3 = 2025-11-05 and a provider
    that answers every date of the range for every body, the range fetch
    lists the dates 11-01 to 11-04 only, so the row of 11-05 gets the eight
    fetched bodies and no Sun; after the data before d2 is removed,
    checkDataAvailability(d2, d3) finds that row incomplete and is false. *)
Theorem C4_fails_when_clocks_are_set_back :
  let run := fetchAndStoreDataForRange (tz := newYorkAutumn2025) completeFetch
               (ISODate 20393) (ISODate 20397) emptyStorage in
  let st' := removeDataBeforeDate (ISODate 20395) (rf_storage run) in
  fetchSucceeds completeFetch 20393 20397
  /\ rf_settled run = Resolved
  /\ getDatesBetween (tz := newYorkAutumn2025) (ISODate 20393) (ISODate 20397)
     = ISODate <$> [20393; 20394; 20395; 20396]
  /\ getPlanetDataForDate (ISODate 20397) st'
     = Some (None :: replicate 8 (Some sunData))
  /\ checkDataAvailability (tz := newYorkAutumn2025)
       (ISODate 20395) (ISODate 20397) st' = false.
Proof.
  intros run st'.
  destruct (fetchAndStore_data (tz := newYorkAutumn2025) completeFetch
              (ISODate 20393) (ISODate 20397) emptyStorage eq_refl)
    as [Hdata Hw].
  fold run in Hdata, Hw. rewrite newYork_dates_1_5 in Hdata.
  pose proof (removeDataBeforeDate_data (ISODate 20395) (rf_storage run) _
                Hw Hdata) as Hkept.
  fold st' in Hkept.
  split; [apply completeFetch_succeeds |].
  split; [unfold run; rewrite fetchAndStore_settled; reflexivity |].
  split; [exact newYork_dates_1_5 |].
  split.
  - unfold getPlanetDataForDate, getAllStoredData. rewrite Hkept.
    vm_compute. reflexivity.
  - rewrite (checkDataAvailability_dates _ _ st' _ Hkept), newYork_dates_3_5.
    vm_compute. reflexivity.
Qed.

(** X5.  Partial failure: when the fetch of one body fails (throws, or returns
    nothing useful), the range fetch still resolves, and the table holds
    elements for every other fetched body on every date of the range, and
    for the Sun too where local days last 24 hours. *)
Theorem one_failed_fetch_is_tolerated {tz : TimeZone}
    (fetch : string -> DateStr -> DateStr -> FetchResult)
    (st : AsyncStorage) (d1 d3 : Z) (failing : string) :
  storage_writable st = true ->
  wfStorage st ->
  (forall planet, planet ∈ PLANET_IDS -> fst planet <> "10"%string ->
                  fst planet <> failing ->
                  fetchSucceedsFor fetch d1 d3 (fst planet)) ->
  let run := fetchAndStoreDataForRange fetch (ISODate d1) (ISODate d3) st in
  rf_settled run = Resolved
  /\ exists tbl,
       planet_data_v2 (rf_storage run) = Some tbl
       /\ forall planet index d,
            planet ∈ PLANET_IDS -> fst planet <> failing ->
            planetIndex (fst planet) = Some index -> d1 <= d <= d3 ->
            fst planet <> "10"%string \/ fixedOffset ->
            filled tbl (ISODate d) index.
Proof.
  intros Hw Hwf Hfetch run.
  destruct (fetchAndStore_data fetch (ISODate d1) (ISODate d3) st Hw)
    as [Hdata _].
  fold run in Hdata.
  split; [unfold run; rewrite fetchAndStore_settled, Hw; reflexivity |].
  eexists. split; [exact Hdata |].
  assert (Hwf0 : wfTable (default ∅ (planet_data_v2 st))).
  { destruct (planet_data_v2 st) as [t |] eqn:Ht; simpl.
    - apply Hwf. exact Ht.
    - apply wfTable_empty. }
  destruct (processPlanets_fill fetch d1 d3 PLANET_IDS
              (default ∅ (planet_data_v2 st), []) ltac:(auto) Hwf0)
    as [_ [_ Hfill]].
  intros planet index d Hin Hne Hindex Hd Hcase.
  apply (Hfill planet index d Hin Hindex).
  destruct (String.eqb_spec (fst planet) "10") as [Hs | Hs].
  - left. split; [exact Hs |].
    destruct Hcase as [Hother | Hfixed]; [contradiction |].
    apply elem_of_getDatesBetween; assumption.
  - right. split; [exact Hs |]. split; [apply Hfetch; assumption | exact Hd].
Qed.

Lemma fetchExcept_succeeds (failing : string) (d1 d3 : Z)
    (planet : string * string) :
  fst planet <> failing ->
  fetchSucceedsFor (fetchExcept failing) d1 d3 (fst planet).
Proof.
  intros Hne. unfold fetchSucceedsFor, fetchExcept.
  destruct (String.eqb_spec (fst planet) failing) as [? | _]; [contradiction |].
  eexists. split; [reflexivity |].
  intros d Hd. exists sunData. apply list_elem_of_fmap.
  exists (ISODate d). split; [reflexivity |].
  cbn [daysBetween]. apply list_elem_of_fmap.
  exists d. split; [reflexivity |]. apply elem_of_seqZ. lia.
Qed.

Lemma one_failed_fetch_witness :
  exists tbl,
    planet_data_v2
      (rf_storage (fetchAndStoreDataForRange (fetchExcept "499")
                     (ISODate 10) (ISODate 12) emptyStorage)) = Some tbl
    /\ filled tbl (ISODate 11) 3 /\ filled tbl (ISODate 11) 0.
Proof.
  destruct (one_failed_fetch_is_tolerated (fetchExcept "499") emptyStorage
              10 12 "499") as [_ [tbl [Htbl Hfill]]].
  - reflexivity.
  - intros tbl H. discriminate H.
  - intros planet _ _ Hne. apply fetchExcept_succeeds. exact Hne.
  - exists tbl. split; [exact Htbl |]. split.
    + apply (Hfill ("399", "Earth")%string 3%nat 11).
      * apply (list_elem_of_lookup_2 PLANET_IDS 3). reflexivity.
      * discriminate.
      * reflexivity.
      * lia.
      * left. discriminate.
    + apply (Hfill ("10", "Sun")%string 0%nat 11).
      * apply (list_elem_of_lookup_2 PLANET_IDS 0). reflexivity.
      * discriminate.
      * reflexivity.
      * lia.
      * right. exact utcZone_fixedOffset.
Defined.

(** *** The nine-slot invariant *)
Lemma processPlanet_wf (fetch : string -> DateStr -> DateStr -> FetchResult)
    (s e : DateStr) (dateList : list DateStr) (planet : string * string)
    (acc : Table * list (string * DateStr * DateStr)) :
  planet ∈ PLANET_IDS -> wfTable (fst acc) ->
  wfTable (fst (processPlanet fetch s e dateList acc planet)).
Proof.
  intros Hin Hwf. destruct acc as [tbl calls].
  destruct (planetIndex_defined planet Hin) as [index Hindex].
  unfold processPlanet.
  destruct (String.eqb (fst planet) "10") eqn:Hsun; cbn [fst].
  - apply String.eqb_eq in Hsun. rewrite Hsun in Hindex.
    rewrite fold_dates_as_rows.
    apply (storeRows "10" index Hindex _ tbl Hwf).
  - destruct (fetch (fst planet) s e) as [| rows]; [exact Hwf |].
    destruct (length rows =? 0)%nat; [exact Hwf |]. cbn [fst].
    apply (storeRows (fst planet) index Hindex rows tbl Hwf).
Qed.

Lemma processPlanets_wf (fetch : string -> DateStr -> DateStr -> FetchResult)
    (s e : DateStr) (dateList : list DateStr) (planets : list (string * string)) :
  forall acc : Table * list (string * DateStr * DateStr),
    (forall planet, planet ∈ planets -> planet ∈ PLANET_IDS) ->
    wfTable (fst acc) ->
    wfTable (fst (fold_left (processPlanet fetch s e dateList) planets acc)).
Proof.
  induction planets as [| planet planets IH]; intros acc Hsub Hwf;
    cbn [fold_left]; [exact Hwf |].
  apply IH.
  - intros p Hp. apply Hsub. right. exact Hp.
  - apply processPlanet_wf; [apply Hsub; left | exact Hwf].
Qed.

Lemma keptBy_wf (cutoffDateStr : DateStr) (tbl : Table) :
  wfTable tbl -> wfTable (keptBy cutoffDateStr tbl).
Proof.
  intros Hwf date row Hrow. unfold keptBy in Hrow.
  apply map_lookup_filter_Some in Hrow as [Hrow _]. eapply Hwf; eassumption.
Qed.

(** X4.  Every table the service writes has nine slots per date: both the
    range fetch and the removal of old data keep that property of the
    store. *)
Theorem wfStorage_invariant {tz : TimeZone}
    (fetch : string -> DateStr -> DateStr -> FetchResult)
    (s e cutoff : DateStr) (st : AsyncStorage) :
  wfStorage st ->
  wfStorage (rf_storage (fetchAndStoreDataForRange fetch s e st))
  /\ wfStorage (removeDataBeforeDate cutoff st).
Proof.
  intros Hwf. split.
  - destruct (storage_writable st) eqn:Hw.
    + destruct (fetchAndStore_data fetch s e st Hw) as [Hdata _].
      intros tbl Htbl. rewrite Hdata in Htbl.
      apply (inj Some) in Htbl. subst tbl.
      apply processPlanets_wf; [auto |]. cbn [fst].
      destruct (planet_data_v2 st) as [t |] eqn:Ht; cbn.
      * apply Hwf. exact Ht.
      * apply wfTable_empty.
    + unfold fetchAndStoreDataForRange, saveAllData. rewrite Hw.
      destruct (fold_left _ _ _) as [tbl calls]. exact Hwf.
  - destruct (planet_data_v2 st) as [tbl |] eqn:Htbl.
    + destruct (storage_writable st) eqn:Hw.
      * intros tbl' Htbl'.
        rewrite (removeDataBeforeDate_data cutoff st tbl Hw Htbl) in Htbl'.
        apply (inj Some) in Htbl'. subst tbl'. apply keptBy_wf, Hwf, Htbl.
      * unfold removeDataBeforeDate, getAllStoredData, saveAllData.
        rewrite Htbl, Hw. exact Hwf.
    + unfold removeDataBeforeDate, getAllStoredData. rewrite Htbl. exact Hwf.
Qed.

Lemma wfStorage_invariant_witness :
  wfStorage (rf_storage (fetchAndStoreDataForRange completeFetch
                           (ISODate 10) (ISODate 12) emptyStorage)).
Proof.
  apply (wfStorage_invariant completeFetch (ISODate 10) (ISODate 12)
           (ISODate 11) emptyStorage).
  intros tbl H. discriminate H.
Defined.

(** *** Reading, pruning and start-up *)

Lemma removeDataBeforeDate_meta_end
    (cutoffDateStr : DateStr) (st : AsyncStorage) (tbl : Table)
    (cleanup metaStart metaEnd : DateStr) :
  storage_writable st = true ->
  getAllStoredData st = Some tbl ->
  getMetaData st = Some (mkMeta cleanup (Some (metaStart, metaEnd))) ->
  exists newStart,
    getMetaData (removeDataBeforeDate cutoffDateStr st)
    = Some (mkMeta cleanup (Some (newStart, metaEnd))).
Proof.
  intros Hw Htbl Hmeta.
  unfold getAllStoredData, getMetaData in *.
  unfold removeDataBeforeDate, getAllStoredData, saveAllData, getMetaData,
    setMetaData.
  rewrite Htbl, Hw. simpl. rewrite Hmeta. simpl. rewrite ?Hw.
  eexists. reflexivity.
Qed.


Lemma emptyStorage_wf : wfStorage emptyStorage.
Proof. intros tbl H. discriminate H. Qed.

(** X6.  Date enumeration: for two parseable dates a and b, in every time
    zone, every date that getDatesBetween lists is a day between a and b,
    and the loop ends by itself (a larger iteration budget gives the same
    list); where the local days all last 24 hours the list has b - a + 1
    entries (none when b < a) and its i-th entry is the day a + i. *)
Theorem getDatesBetween_enumerates {tz : TimeZone} (a b : Z) :
  (forall date, date ∈ getDatesBetween (ISODate a) (ISODate b) ->
                exists d, a <= d <= b /\ date = ISODate d)
  /\ (forall fuel : nat,
        (datesFuel (a * MS_PER_DAY) (b * MS_PER_DAY) <= fuel)%nat ->
        datesLoop fuel (a * MS_PER_DAY) (b * MS_PER_DAY)
        = getDatesBetween (ISODate a) (ISODate b))
  /\ (fixedOffset ->
      length (getDatesBetween (ISODate a) (ISODate b)) = Z.to_nat (b - a + 1)
      /\ forall i : nat, Z.of_nat i <= b - a ->
           getDatesBetween (ISODate a) (ISODate b) !! i
           = Some (ISODate (a + Z.of_nat i))).
Proof.
  split; [| split].
  - intros date. apply getDatesBetween_within.
  - intros fuel Hfuel. unfold getDatesBetween. cbn [newDate].
    apply datesLoop_fuel_irrelevant. exact Hfuel.
  - intros Hfixed. split.
    + rewrite getDatesBetween_days by exact Hfixed.
      rewrite length_fmap, length_seqZ. reflexivity.
    + intros i Hi. rewrite getDatesBetween_days by exact Hfixed.
      rewrite list_lookup_fmap.
      assert (Hi' : seqZ a (b - a + 1) !! i = Some (a + Z.of_nat i))
        by (apply lookup_seqZ; lia).
      rewrite Hi'. reflexivity.
Qed.

Lemma getDatesBetween_enumerates_witness :
  getDatesBetween (ISODate 10) (ISODate 12) !! 1%nat = Some (ISODate 11).
Proof.
  apply (proj2 (proj2 (proj2 (getDatesBetween_enumerates 10 12))
                  utcZone_fixedOffset) 1%nat).
  lia.
Defined.

Lemma keptBy_lookup (cutoffDateStr date : DateStr) (tbl : Table) :
  keptBy cutoffDateStr tbl !! date
  = if date_ge (newDate date) (newDate cutoffDateStr) then tbl !! date else None.
Proof.
  unfold keptBy.
  destruct (date_ge (newDate date) (newDate cutoffDateStr)) eqn:Hge.
  - destruct (tbl !! date) as [row |] eqn:Hrow.
    + apply map_lookup_filter_Some. split; [assumption | exact Hge].
    + apply map_lookup_filter_None. left. assumption.
  - apply map_lookup_filter_None. right. intros row _. simpl.
    rewrite Hge. discriminate.
Qed.

(** X7.  Pruning is exact: after removeDataBeforeDate(cutoff) on a writable
    store, for every key that is not the name of a member of
    Object.prototype, getPlanetDataForDate returns the row stored before
    when the key is a date on or after the cutoff, and null otherwise
    (earlier dates, and keys that do not parse). *)
Theorem removeDataBeforeDate_keeps_exactly
    (cutoffDateStr date : DateStr) (st : AsyncStorage) (tbl : Table) :
  inheritedDate date = false ->
  storage_writable st = true ->
  getAllStoredData st = Some tbl ->
  getPlanetDataForDate date (removeDataBeforeDate cutoffDateStr st)
  = if date_ge (newDate date) (newDate cutoffDateStr)
    then tbl !! date else None.
Proof.
  intros _ Hw Htbl. unfold getPlanetDataForDate, getAllStoredData.
  rewrite (removeDataBeforeDate_data cutoffDateStr st tbl Hw Htbl).
  apply keptBy_lookup.
Qed.

Lemma removeDataBeforeDate_keeps_exactly_witness :
  getPlanetDataForDate (ISODate 10)
    (removeDataBeforeDate (ISODate 11) weekStorage) = None.
Proof.
  apply (removeDataBeforeDate_keeps_exactly (ISODate 11) (ISODate 10)
           weekStorage weekTable); reflexivity.
Defined.

Lemma removeDataBeforeDate_writable (cutoffDateStr : DateStr) (st : AsyncStorage) :
  storage_writable (removeDataBeforeDate cutoffDateStr st) = storage_writable st.
Proof.
  unfold removeDataBeforeDate, getAllStoredData, saveAllData, getMetaData,
    setMetaData.
  destruct (planet_data_v2 st) as [tbl |]; [| reflexivity].
  destruct (storage_writable st) eqn:Hw; [| exact Hw]. simpl.
  destruct (planet_data_meta_v2 st) as [[cleanup [[metaStart metaEnd] |]] |];
    simpl; rewrite ?Hw; reflexivity.
Qed.

(** X8.  Pruning twice: removing the data before c1 and then the data
    before a later cutoff c2 leaves the same table as removing the data
    before c2 at once. *)
Theorem removeDataBeforeDate_twice (c1 c2 : Z) (st : AsyncStorage) :
  c1 <= c2 ->
  storage_writable st = true ->
  getAllStoredData
    (removeDataBeforeDate (ISODate c2) (removeDataBeforeDate (ISODate c1) st))
  = getAllStoredData (removeDataBeforeDate (ISODate c2) st).
Proof.
  intros Hc Hw. unfold getAllStoredData.
  destruct (planet_data_v2 st) as [tbl |] eqn:Htbl.
  - pose proof (removeDataBeforeDate_data (ISODate c1) st tbl Hw Htbl) as H1.
    assert (Hw1 : storage_writable (removeDataBeforeDate (ISODate c1) st) = true)
      by (rewrite removeDataBeforeDate_writable; exact Hw).
    rewrite (removeDataBeforeDate_data (ISODate c2) _ _ Hw1 H1).
    rewrite (removeDataBeforeDate_data (ISODate c2) st tbl Hw Htbl).
    f_equal. apply map_eq. intros date. rewrite !keptBy_lookup.
    destruct (date_ge (newDate date) (newDate (ISODate c2))) eqn:H2; [| reflexivity].
    destruct date as [d | r]; simpl in *; [| discriminate].
    apply Z.leb_le in H2.
    assert (Hge : (c1 * MS_PER_DAY <=? d * MS_PER_DAY) = true)
      by (apply Z.leb_le; unfold MS_PER_DAY in *; lia).
    rewrite Hge. reflexivity.
  - assert (H1 : removeDataBeforeDate (ISODate c1) st = st)
      by (unfold removeDataBeforeDate, getAllStoredData; rewrite Htbl; reflexivity).
    rewrite H1. reflexivity.
Qed.

Lemma removeDataBeforeDate_twice_witness :
  getAllStoredData
    (removeDataBeforeDate (ISODate 12)
       (removeDataBeforeDate (ISODate 11) weekStorage))
  = getAllStoredData (removeDataBeforeDate (ISODate 12) weekStorage).
Proof.
  apply (removeDataBeforeDate_twice 11 12 weekStorage); [lia | reflexivity].
Defined.





Lemma fetchAndStore_meta {tz : TimeZone} (fetch : string -> DateStr -> DateStr -> FetchResult)
    (s e : DateStr) (st : AsyncStorage) :
  storage_writable st = true ->
  getMetaData (rf_storage (fetchAndStoreDataForRange fetch s e st))
  = Some (extendMeta s e (getMetaData st)).
Proof.
  intros Hw. unfold fetchAndStoreDataForRange, getAllStoredData.
  destruct (fold_left _ _ _) as [tbl calls].
  unfold saveAllData, setMetaData, getMetaData.
  rewrite Hw. simpl. rewrite ?Hw. reflexivity.
Qed.

(** X10.  Recorded range after a fetch: on a writable store, a range fetch
    for [a, b] widens a recorded range [s0, e0] to
    [min a s0, max b e0]; with no metadata it records [a, max a b] (so a
    reversed request a > b is recorded as the single day a). *)
Theorem range_fetch_widens_coverage {tz : TimeZone}
    (fetch : string -> DateStr -> DateStr -> FetchResult)
    (a b : Z) (st : AsyncStorage) :
  storage_writable st = true ->
  let range :=
    getDataAvailabilityRange
      (rf_storage (fetchAndStoreDataForRange fetch (ISODate a) (ISODate b) st)) in
  (forall s0 e0, getDataAvailabilityRange st = Some (ISODate s0, ISODate e0) ->
      range = Some (ISODate (Z.min a s0), ISODate (Z.max b e0)))
  /\ (getMetaData st = None ->
      range = Some (ISODate a, ISODate (Z.max a b))).
Proof.
  intros Hw range. unfold range, getDataAvailabilityRange.
  rewrite (fetchAndStore_meta fetch _ _ st Hw). split.
  - intros s0 e0 Hrange. unfold getDataAvailabilityRange in Hrange.
    destruct (getMetaData st) as [[cleanup r] |]; [| discriminate].
    simpl in Hrange. subst r. unfold extendMeta. simpl.
    destruct (Z.ltb_spec (a * MS_PER_DAY) (s0 * MS_PER_DAY));
      destruct (Z.ltb_spec (e0 * MS_PER_DAY) (b * MS_PER_DAY));
      do 3 f_equal; unfold MS_PER_DAY in *; lia.
  - intros ->. unfold extendMeta. simpl.
    rewrite Z.ltb_irrefl.
    destruct (Z.ltb_spec (a * MS_PER_DAY) (b * MS_PER_DAY));
      do 3 f_equal; unfold MS_PER_DAY in *; lia.
Qed.

Lemma range_fetch_widens_coverage_witness :
  getDataAvailabilityRange
    (rf_storage (fetchAndStoreDataForRange completeFetch
                   (ISODate 8) (ISODate 11) weekStorage))
  = Some (ISODate 8, ISODate 12).
Proof.
  apply (proj1 (range_fetch_widens_coverage completeFetch 8 11 weekStorage
                  eq_refl) 10 12).
  reflexivity.
Defined.

Lemma planetIndex_zero (planet : string * string) :
  planet ∈ PLANET_IDS -> planetIndex (fst planet) = Some 0%nat ->
  fst planet = "10"%string.
Proof.
  unfold PLANET_IDS. intros H.
  repeat (apply elem_of_cons in H as [-> | H];
          [first [reflexivity | discriminate] |]).
  inversion H.
Qed.

Section StoreValues.
Variables (planetId : string) (index : nat).
Hypothesis Hindex : planetIndex planetId = Some index.

Lemma storeForPlanet_keeps_sun (tbl : Table) (date : DateStr) (data : PlanetData)
    (date' : DateStr) :
  wfTable tbl -> index <> 0%nat \/ data = sunData ->
  holdsSun tbl date' -> holdsSun (storeForPlanet planetId tbl date data) date'.
Proof using Hindex.
  intros Hwf Hok [row [Hrow Hslot]].
  destruct (storeForPlanet_cases planetId index Hindex tbl date data)
    as [-> | Hown]; [exists row; split; assumption |].
  unfold holdsSun.
  rewrite (storeForPlanet_lookup planetId index Hindex) by assumption.
  destruct (decide (date = date')) as [-> | Hne]; [| eauto].
  rewrite Hrow. simpl. eexists. split; [reflexivity |].
  destruct (decide (index = 0%nat)) as [-> | Hi].
  - destruct Hok as [? | ->]; [contradiction |].
    apply list_lookup_insert_eq. eapply lookup_lt_Some; eassumption.
  - rewrite list_lookup_insert_ne by assumption. exact Hslot.
Qed.

Lemma storeRows_keeps_sun (rows : list (DateStr * PlanetData)) :
  forall tbl : Table,
    wfTable tbl ->
    index <> 0%nat \/ (forall r, r ∈ rows -> snd r = sunData) ->
    forall date',
      holdsSun tbl date' ->
      holdsSun (fold_left (fun t r => storeForPlanet planetId t (fst r) (snd r))
                          rows tbl) date'.
Proof using Hindex.
  induction rows as [| [date data] rows IH]; intros tbl Hwf Hok date' Hs;
    cbn [fold_left]; [exact Hs |].
  apply IH.
  - apply (storeForPlanet_wf planetId index Hindex); assumption.
  - destruct Hok as [? | Hall]; [left; assumption | right].
    intros r Hr. apply Hall. right. exact Hr.
  - apply storeForPlanet_keeps_sun; [assumption | | assumption].
    destruct Hok as [? | Hall]; [left; assumption | right].
    apply (Hall (date, data)). left.
Qed.
End StoreValues.

Lemma storeForPlanet_sets_sun (tbl : Table) (date : DateStr) :
  wfTable tbl -> inheritedDate date = false ->
  holdsSun (storeForPlanet "10" tbl date sunData) date.
Proof.
  intros Hwf Hown. unfold holdsSun.
  rewrite (storeForPlanet_lookup "10" 0 eq_refl) by auto.
  rewrite decide_True by reflexivity. eexists. split; [reflexivity |].
  apply list_lookup_insert_eq.
  destruct (tbl !! date) as [r |] eqn:Hr; simpl; [rewrite (Hwf _ _ Hr) |]; lia.
Qed.

Section AnyRange.
Variable fetch : string -> DateStr -> DateStr -> FetchResult.
Variables (startDateStr endDateStr : DateStr) (dateList : list DateStr).

Let step := processPlanet fetch startDateStr endDateStr dateList.

Lemma sunRows_all_zero (r : DateStr * PlanetData) :
  r ∈ ((fun date => (date, sunData)) <$> dateList) -> snd r = sunData.
Proof.
  intros Hr. apply list_elem_of_fmap in Hr as [date [-> _]]. reflexivity.
Qed.

Lemma processPlanet_keeps (planet : string * string)
    (acc : Table * list (string * DateStr * DateStr)) :
  planet ∈ PLANET_IDS -> wfTable (fst acc) ->
  (forall date i, filled (fst acc) date i -> filled (fst (step acc planet)) date i)
  /\ (forall date, holdsSun (fst acc) date -> holdsSun (fst (step acc planet)) date)
  /\ (fst planet = "10"%string ->
      forall date, date ∈ dateList -> inheritedDate date = false ->
                   holdsSun (fst (step acc planet)) date).
Proof.
  intros Hin Hwf. destruct acc as [tbl calls]. cbn [fst] in Hwf.
  destruct (planetIndex_defined planet Hin) as [index Hindex].
  unfold step, processPlanet.
  destruct (String.eqb (fst planet) "10") eqn:Hsun; cbn [fst].
  - apply String.eqb_eq in Hsun. rewrite Hsun in Hindex.
    rewrite fold_dates_as_rows.
    destruct (storeRows "10" index Hindex
                ((fun date => (date, sunData)) <$> dateList) tbl Hwf)
      as [_ [Hkeep _]].
    split; [exact Hkeep |]. split.
    + intros date Hs. apply (storeRows_keeps_sun "10" index Hindex); auto.
      right. apply sunRows_all_zero.
    + intros _. clear Hkeep. revert tbl Hwf.
      induction dateList as [| d l IHl]; intros tbl Hwf date Hd Hown;
        [inversion Hd |].
      rewrite fmap_cons. cbn [fold_left fst snd].
      assert (Hwf1 : wfTable (storeForPlanet "10" tbl d sunData))
        by (apply (storeForPlanet_wf "10" index Hindex); assumption).
      apply elem_of_cons in Hd as [-> | Hd].
      * apply (storeRows_keeps_sun "10" index Hindex); auto.
        -- right. intros r Hr. apply list_elem_of_fmap in Hr as [? [-> _]].
           reflexivity.
        -- apply storeForPlanet_sets_sun; assumption.
      * apply IHl; assumption.
  - apply String.eqb_neq in Hsun.
    assert (Hnz : index <> 0%nat).
    { intros ->. apply Hsun. apply planetIndex_zero; assumption. }
    destruct (fetch (fst planet) startDateStr endDateStr) as [| rows];
      [cbn [fst]; split; [auto |]; split; [auto | intros; contradiction] |].
    destruct (length rows =? 0)%nat; cbn [fst];
      [split; [auto |]; split; [auto | intros; contradiction] |].
    destruct (storeRows (fst planet) index Hindex rows tbl Hwf) as [_ [Hkeep _]].
    split; [exact Hkeep |]. split; [| intros; contradiction].
    intros date Hs. apply (storeRows_keeps_sun (fst planet) index Hindex); auto.
Qed.

Lemma processPlanets_keep (planets : list (string * string)) :
  forall acc : Table * list (string * DateStr * DateStr),
    (forall planet, planet ∈ planets -> planet ∈ PLANET_IDS) ->
    wfTable (fst acc) ->
    (forall date i, filled (fst acc) date i ->
                    filled (fst (fold_left step planets acc)) date i)
    /\ (forall date, holdsSun (fst acc) date ->
                     holdsSun (fst (fold_left step planets acc)) date).
Proof.
  induction planets as [| planet planets IH]; intros acc Hsub Hwf;
    cbn [fold_left]; [split; auto |].
  assert (Hin : planet ∈ PLANET_IDS) by (apply Hsub; left).
  destruct (processPlanet_keeps planet acc Hin Hwf) as [Hk1 [Hs1 _]].
  destruct (IH (step acc planet)) as [Hk Hs].
  { intros p Hp. apply Hsub. right. exact Hp. }
  { apply processPlanet_wf; assumption. }
  split; auto.
Qed.
End AnyRange.



(** X12.  The Sun is synthesised, not fetched: for every provider and every
    time zone, a range fetch on a writable store never calls the provider
    with the Sun's id '10', and afterwards every date that getDatesBetween
    lists for the range has a row whose slot 0 holds the all-zero Sun
    elements; where the local days all last 24 hours these are all the days
    of the range. *)
Theorem range_fetch_synthesises_sun {tz : TimeZone}
    (fetch : string -> DateStr -> DateStr -> FetchResult)
    (d1 d3 : Z) (st : AsyncStorage) :
  storage_writable st = true ->
  wfStorage st ->
  let run := fetchAndStoreDataForRange fetch (ISODate d1) (ISODate d3) st in
  (forall call, call ∈ rf_calls run -> fst (fst call) <> "10"%string)
  /\ (forall date, date ∈ getDatesBetween (ISODate d1) (ISODate d3) ->
       exists row,
         getPlanetDataForDate date (rf_storage run) = Some row
         /\ row !! 0%nat = Some (Some sunData))
  /\ (fixedOffset ->
      forall d, d1 <= d <= d3 ->
        exists row,
          getPlanetDataForDate (ISODate d) (rf_storage run) = Some row
          /\ row !! 0%nat = Some (Some sunData)).
Proof.
  intros Hw Hwf run.
  cut (forall date,
          date ∈ getDatesBetween (ISODate d1) (ISODate d3) ->
          exists row,
            getPlanetDataForDate date (rf_storage run) = Some row
            /\ row !! 0%nat = Some (Some sunData));
    [intros Hlisted; split; [| split; [exact Hlisted |];
       intros Hfixed d Hd; apply Hlisted;
       apply (elem_of_getDatesBetween _ _ _ Hfixed); exact Hd] |].
  - unfold run. rewrite fetchAndStore_calls_all. intros call Hcall.
    apply list_elem_of_fmap in Hcall as [planetId [-> Hid]]. simpl.
    unfold fetchedIds in Hid.
    repeat (apply elem_of_cons in Hid as [-> | Hid]; [discriminate |]).
    inversion Hid.
  - intros date Hd. unfold getPlanetDataForDate, getAllStoredData, run.
    destruct (fetchAndStore_data fetch (ISODate d1) (ISODate d3) st Hw) as [-> _].
    assert (Hwf0 : wfTable (default ∅ (planet_data_v2 st))).
    { destruct (planet_data_v2 st) as [t |] eqn:Ht; simpl.
      - apply Hwf. exact Ht.
      - apply wfTable_empty. }
    assert (Hown : inheritedDate date = false)
      by (destruct (getDatesBetween_within _ _ _ Hd) as [d [_ ->]]; reflexivity).
    set (dateList := getDatesBetween (ISODate d1) (ISODate d3)) in *.
    set (acc0 := (default ∅ (planet_data_v2 st),
                  @nil (string * DateStr * DateStr))).
    set (sun := ("10"%string, "Sun"%string)).
    set (step := processPlanet fetch (ISODate d1) (ISODate d3) dateList).
    change (holdsSun
              (fst (fold_left step (tail PLANET_IDS) (step acc0 sun)))
              date).
    assert (Hsun : sun ∈ PLANET_IDS)
      by (apply (list_elem_of_lookup_2 _ 0); reflexivity).
    destruct (processPlanet_keeps fetch (ISODate d1) (ISODate d3) dateList
                sun acc0 Hsun Hwf0) as [_ [_ Hset]].
    apply (processPlanets_keep fetch (ISODate d1) (ISODate d3) dateList).
    + intros p Hp. right. exact Hp.
    + apply processPlanet_wf; assumption.
    + apply Hset; [reflexivity | exact Hd | exact Hown].
Qed.

Lemma range_fetch_synthesises_sun_witness :
  exists row,
    getPlanetDataForDate (ISODate 11)
      (rf_storage (fetchAndStoreDataForRange failingFetch
                     (ISODate 10) (ISODate 12) emptyStorage)) = Some row
    /\ row !! 0%nat = Some (Some sunData).
Proof.
  apply (proj2 (proj2 (range_fetch_synthesises_sun failingFetch 10 12
                         emptyStorage eq_refl emptyStorage_wf))
           utcZone_fixedOffset 11).
  lia.
Defined.

(** X13.  Fetch, then check: after a range fetch on a writable store whose
    provider answers every date of the range for every body,
    checkDataAvailability accepts that range and getPlanetDataForDate
    returns a row for each of its dates. *)
Theorem range_fetch_makes_range_available {tz : TimeZone}
    (fetch : string -> DateStr -> DateStr -> FetchResult)
    (st : AsyncStorage) (d1 d3 : Z) :
  storage_writable st = true ->
  wfStorage st ->
  fetchSucceeds fetch d1 d3 ->
  let st' := rf_storage (fetchAndStoreDataForRange fetch (ISODate d1) (ISODate d3) st) in
  checkDataAvailability (ISODate d1) (ISODate d3) st' = true
  /\ (forall d, d1 <= d <= d3 -> is_Some (getPlanetDataForDate (ISODate d) st')).
Proof.
  intros Hw Hwf Hfetch st'.
  destruct (fetchAndStore_data fetch (ISODate d1) (ISODate d3) st Hw) as [Hdata _].
  fold st' in Hdata.
  set (tbl := fst (fold_left
                (processPlanet fetch (ISODate d1) (ISODate d3)
                   (getDatesBetween (ISODate d1) (ISODate d3)))
                PLANET_IDS (default ∅ (planet_data_v2 st), []))) in *.
  assert (Hwf0 : wfTable (default ∅ (planet_data_v2 st))).
  { destruct (planet_data_v2 st) as [t |] eqn:Ht; simpl.
    - apply Hwf. exact Ht.
    - apply wfTable_empty. }
  destruct (processPlanets_fill fetch d1 d3 PLANET_IDS
              (default ∅ (planet_data_v2 st), []) ltac:(auto) Hwf0)
    as [Hwf' [_ Hfill]].
  fold tbl in Hwf', Hfill.
  assert (Hothers : forall d i, d1 <= d <= d3 -> (0 < i < 9)%nat ->
                                filled tbl (ISODate d) i).
  { intros d i Hd Hi.
    destruct (planetIndex_onto i ltac:(lia)) as [planet [Hin Hindex]].
    assert (Hs : fst planet <> "10"%string).
    { intros Hs. rewrite Hs in Hindex. injection Hindex as <-. lia. }
    apply (Hfill planet i d Hin Hindex). right.
    split; [exact Hs |]. split; [apply Hfetch; assumption | exact Hd]. }
  assert (Hsun : forall d,
             ISODate d ∈ getDatesBetween (ISODate d1) (ISODate d3) ->
             filled tbl (ISODate d) 0).
  { intros d Hd.
    apply (Hfill ("10"%string, "Sun"%string) 0%nat d);
      [apply (list_elem_of_lookup_2 _ 0); reflexivity | reflexivity |].
    left. split; [reflexivity | exact Hd]. }
  split.
  - rewrite (checkDataAvailability_dates _ _ st' _ Hdata).
    apply forallb_forall. intros date Hin. apply list_elem_of_In in Hin.
    destruct (getDatesBetween_within _ _ _ Hin) as [d [Hd ->]].
    apply rowComplete_filled; [exact Hwf' |]. intros i Hi.
    destruct i as [| i]; [apply Hsun; exact Hin | apply Hothers; [exact Hd | lia]].
  - intros d Hd. unfold getPlanetDataForDate, getAllStoredData. rewrite Hdata.
    destruct (Hothers d 1%nat Hd ltac:(lia)) as [row [_ [Hrow _]]].
    eexists; exact Hrow.
Qed.

Lemma range_fetch_makes_range_available_witness :
  checkDataAvailability (ISODate 10) (ISODate 12)
    (rf_storage (fetchAndStoreDataForRange completeFetch
                   (ISODate 10) (ISODate 12) emptyStorage)) = true.
Proof.
  apply (proj1 (range_fetch_makes_range_available completeFetch emptyStorage
                  10 12 eq_refl emptyStorage_wf (completeFetch_succeeds 10 12))).
Defined.

(** X14.  Availability of an invalid range: for a reversed range or a date
    that does not parse, checkDataAvailability has no date to test; it
    answers true as soon as a table is stored and false otherwise. *)
Theorem checkDataAvailability_invalid_range {tz : TimeZone} (s e : DateStr) (st : AsyncStorage) :
  invalidRange s e ->
  checkDataAvailability s e st
  = match getAllStoredData st with Some _ => true | None => false end.
Proof.
  intros Hinv. unfold checkDataAvailability.
  destruct (getAllStoredData st) as [tbl |]; [| reflexivity].
  pose proof (getDatesBetween_invalid s e Hinv) as Hnil.
  unfold getDatesBetween in Hnil. rewrite Hnil. reflexivity.
Qed.

Lemma checkDataAvailability_invalid_range_witness :
  checkDataAvailability (ISODate 12) (ISODate 10) weekStorage = true.
Proof.
  apply (checkDataAvailability_invalid_range (ISODate 12) (ISODate 10)
           weekStorage).
  right. right. reflexivity.
Defined.

(** X15.  Start-up with current data: in every time zone, when the
    recorded range ends after the present instant, initializeDataStore
    calls the provider not at all and resolves; the store it leaves is the
    old one without the days before yesterday, yesterday being the UTC date
    of the instant one local calendar day back; a date key that names no
    member of Object.prototype then reads as before if it is on or after
    yesterday and as null otherwise. *)
Theorem initializeDataStore_current_store {tz : TimeZone}
    (fetch : string -> DateStr -> DateStr -> FetchResult)
    (twoMonthsLater : Z -> Z)
    (now : Z) (st : AsyncStorage) (tbl : Table)
    (cleanup metaStart : DateStr) (metaEnd : Z) :
  storage_writable st = true ->
  getAllStoredData st = Some tbl ->
  getMetaData st = Some (mkMeta cleanup (Some (metaStart, ISODate metaEnd))) ->
  now < metaEnd * MS_PER_DAY ->
  let run := initializeDataStore fetch twoMonthsLater now st in
  rf_calls run = []
  /\ rf_settled run = Resolved
  /\ rf_storage run = removeDataBeforeDate (toISODate (previousLocalDay now)) st
  /\ forall date,
       inheritedDate date = false ->
       getPlanetDataForDate date (rf_storage run)
       = if date_ge (newDate date)
              (Some (previousLocalDay now / MS_PER_DAY * MS_PER_DAY))
         then tbl !! date else None.
Proof.
  intros Hw Htbl Hmeta Hnow run.
  destruct (removeDataBeforeDate_meta_end (toISODate (previousLocalDay now))
              st tbl cleanup metaStart (ISODate metaEnd) Hw Htbl Hmeta)
    as [newStart Hmeta'].
  assert (Hrun : run = mkRangeFetch
                         (removeDataBeforeDate (toISODate (previousLocalDay now)) st)
                         [] Resolved).
  { unfold run, initializeDataStore. rewrite Hmeta'. simpl.
    destruct (Z.ltb_spec now (metaEnd * MS_PER_DAY)); [reflexivity | lia]. }
  rewrite Hrun. cbn [rf_calls rf_settled rf_storage].
  repeat split.
  intros date _. unfold getPlanetDataForDate, getAllStoredData.
  rewrite (removeDataBeforeDate_data _ st tbl Hw Htbl).
  apply keptBy_lookup.
Qed.

Lemma initializeDataStore_current_store_witness :
  rf_calls (initializeDataStore failingFetch (fun now => now + 61 * MS_PER_DAY)
              (11 * MS_PER_DAY) weekStorage) = [].
Proof.
  apply (proj1 (initializeDataStore_current_store failingFetch
                  (fun now => now + 61 * MS_PER_DAY) (11 * MS_PER_DAY)
                  weekStorage weekTable (ISODate 9) (ISODate 10) 12
                  eq_refl eq_refl eq_refl eq_refl)).
Defined.

(** X16.  Start-up with stale or missing data: when no recorded range ends
    after the present instant, initializeDataStore asks the provider for
    each of the eight bodies other than the Sun, for the range from today to
    the date two months ahead. *)
Theorem initializeDataStore_stale_store {tz : TimeZone}
    (fetch : string -> DateStr -> DateStr -> FetchResult)
    (twoMonthsLater : Z -> Z) (now : Z) (st : AsyncStorage) :
  (forall cleanup metaStart metaEnd,
      getMetaData st = Some (mkMeta cleanup (Some (metaStart, metaEnd))) ->
      date_gt (newDate metaEnd) (Some now) = false) ->
  let run := initializeDataStore fetch twoMonthsLater now st in
  rf_calls run
  = (fun planetId => (planetId, toISODate now, toISODate (twoMonthsLater now)))
      <$> fetchedIds.
Proof.
  intros Hstale run. unfold run, initializeDataStore.
  set (st1 := removeDataBeforeDate (toISODate (previousLocalDay now)) st).
  assert (Hend : forall cleanup metaStart metaEnd,
             getMetaData st1 = Some (mkMeta cleanup (Some (metaStart, metaEnd))) ->
             date_gt (newDate metaEnd) (Some now) = false).
  { intros cleanup metaStart metaEnd. unfold st1, removeDataBeforeDate,
      getAllStoredData, saveAllData, getMetaData, setMetaData.
    destruct (planet_data_v2 st) as [tbl |]; [| apply Hstale].
    destruct (storage_writable st) eqn:Hw; [| apply Hstale]. simpl.
    destruct (planet_data_meta_v2 st) as [[cl [[ms me] |]] |] eqn:Hm;
      simpl; rewrite ?Hw; simpl; try discriminate.
    intros [= -> _ ->]. eapply Hstale. unfold getMetaData. rewrite Hm. reflexivity. }
  destruct (getMetaData st1) as [[cleanup [[metaStart metaEnd] |]] |] eqn:Hm1;
    try apply fetchAndStore_calls_all.
  rewrite (Hend _ _ _ eq_refl). apply fetchAndStore_calls_all.
Qed.

Lemma initializeDataStore_stale_store_witness :
  rf_calls (initializeDataStore failingFetch (fun now => now + 61 * MS_PER_DAY)
              (13 * MS_PER_DAY) weekStorage)
  = (fun planetId =>
       (planetId, toISODate (13 * MS_PER_DAY),
        toISODate (13 * MS_PER_DAY + 61 * MS_PER_DAY))) <$> fetchedIds.
Proof.
  apply (initializeDataStore_stale_store failingFetch
           (fun now => now + 61 * MS_PER_DAY) (13 * MS_PER_DAY) weekStorage).
  intros cleanup metaStart metaEnd H. injection H as _ _ <-. reflexivity.
Defined.

Local Close Scope Z_scope.
Local Open Scope R_scope.

(** ** Animation handler *)



Lemma assoc_get_set_same {A : Type} (key : string) (v : A)
    (obj : list (string * A)) :
  assoc_get key (assoc_set key v obj) = Some v.
Proof.
  induction obj as [| [k v'] obj IH]; cbn [assoc_set assoc_get].
  - rewrite String.eqb_refl. reflexivity.
  - destruct (String.eqb k key) eqn:Hk; cbn [assoc_get]; rewrite Hk;
      [reflexivity | exact IH].
Qed.

Lemma assoc_get_set_other {A : Type} (key name : string) (v : A)
    (obj : list (string * A)) :
  name <> key -> assoc_get name (assoc_set key v obj) = assoc_get name obj.
Proof.
  intros Hne. induction obj as [| [k v'] obj IH]; cbn [assoc_set assoc_get].
  - destruct (String.eqb_spec key name) as [-> | _]; [congruence | reflexivity].
  - destruct (String.eqb_spec k key) as [-> | Hk]; cbn [assoc_get].
    + destruct (String.eqb_spec key name) as [-> | _]; [congruence | reflexivity].
    + destruct (String.eqb k name); [reflexivity | exact IH].
Qed.

Section ForEachBody.
Context {tz : TimeZone}.
Variables (tbl : Table) (earthIndex exactDate : Z)
          (earthOriginalPosition : Position R) (deltaTime : R).

Let run := forEachBody tbl earthIndex exactDate earthOriginalPosition deltaTime.


Lemma springUpdate_other (body : CelestialBodyConfig) (t : Position R)
    (cache : gmap string SpringState)
    (r : gmap string SpringState * Position R) (name : string) :
  springUpdate body deltaTime t cache = Some r ->
  name <> body_name body ->
  fst r !! name = cache !! name.
Proof.
  unfold springUpdate. intros Hr Hne.
  destruct (cache !! body_name body) as [c |];
    [| destruct (inheritedName (body_name body)); [discriminate |]];
    apply (inj Some) in Hr; subst r; cbn [fst];
    apply lookup_insert_ne; congruence.
Qed.

Lemma springUpdate_defined (body : CelestialBodyConfig) (t : Position R)
    (cache : gmap string SpringState) :
  inheritedName (body_name body) = false ->
  is_Some (springUpdate body deltaTime t cache).
Proof.
  intros Hown. unfold springUpdate. rewrite Hown.
  destruct (cache !! body_name body); eexists; reflexivity.
Qed.

Lemma springUpdate_inherited (body : CelestialBodyConfig) (t : Position R)
    (cache : gmap string SpringState) :
  inheritedName (body_name body) = true -> cache !! body_name body = None ->
  springUpdate body deltaTime t cache = None.
Proof.
  intros Hinh Hnone. unfold springUpdate. rewrite Hnone, Hinh. reflexivity.
Qed.

Lemma springUpdate_fresh (body : CelestialBodyConfig) (t : Position R)
    (cache : gmap string SpringState) :
  cache !! body_name body = None ->
  inheritedName (body_name body) = false ->
  springUpdate body deltaTime t cache
  = Some (<[body_name body := mkSpring t t origin]> cache, t).
Proof.
  intros Hnone Hown. unfold springUpdate. rewrite Hnone, Hown.
  destruct t as [x y z]. unfold origin.
  cbn [target current velocity pos_x pos_y pos_z].
  repeat f_equal; ring.
Qed.

Lemma forEachBody_defined (bodies : list CelestialBodyConfig) :
  forall (index0 : nat)
         (acc : gmap string SpringState * list (string * Position R)),
    (forall b, b ∈ bodies -> inheritedName (body_name b) = false) ->
    is_Some (run index0 bodies acc).
Proof.
  induction bodies as [| body bodies IH]; intros index0 acc Hown;
    unfold run in *; cbn [forEachBody]; [eexists; reflexivity |].
  assert (Hbody : inheritedName (body_name body) = false)
    by (apply Hown; apply elem_of_cons; left; reflexivity).
  pose proof (springUpdate_defined body
                (bodyTarget tbl earthIndex exactDate earthOriginalPosition
                   index0 body) (fst acc) Hbody) as [[cache cur] Hsp].
  rewrite Hsp. apply IH.
  intros b Hb. apply Hown. apply elem_of_cons. right. exact Hb.
Qed.

Lemma forEachBody_other (bodies : list CelestialBodyConfig) :
  forall (index0 : nat)
         (acc r : gmap string SpringState * list (string * Position R))
         (name : string),
    run index0 bodies acc = Some r ->
    name ∉ (body_name <$> bodies) ->
    assoc_get name (snd r) = assoc_get name (snd acc)
    /\ fst r !! name = fst acc !! name.
Proof.
  induction bodies as [| body bodies IH]; intros index0 acc r name Hrun Hname;
    unfold run in *; cbn [forEachBody] in Hrun.
  - apply (inj Some) in Hrun. subst r. split; reflexivity.
  - rewrite fmap_cons in Hname. apply not_elem_of_cons in Hname as [Hne Hrest].
    destruct (springUpdate body deltaTime _ (fst acc)) as [[cache cur] |] eqn:Hsp;
      [| discriminate].
    destruct (IH _ _ _ name Hrun Hrest) as [Hobj Hcache].
    rewrite Hobj, Hcache. cbn [fst snd]. split.
    + apply assoc_get_set_other. exact Hne.
    + exact (springUpdate_other _ _ _ _ _ Hsp Hne).
Qed.



(** From a cache without entries for the bodies, every body ends the loop
    at its target, with zero velocity. *)
Lemma forEachBody_fresh (bodies : list CelestialBodyConfig) :
  forall (index0 : nat)
         (acc r : gmap string SpringState * list (string * Position R))
         (index : nat) (body : CelestialBodyConfig),
    run index0 bodies acc = Some r ->
    bodies !! index = Some body ->
    NoDup (body_name <$> bodies) ->
    (forall b, b ∈ bodies -> fst acc !! body_name b = None) ->
    let t := bodyTarget tbl earthIndex exactDate earthOriginalPosition
               (index0 + index) body in
    assoc_get (body_name body) (snd r) = Some t
    /\ fst r !! body_name body = Some (mkSpring t t origin).
Proof.
  induction bodies as [| b bodies IH];
    intros index0 acc r index body Hrun Hlook Hnd Hfresh; [discriminate |].
  rewrite fmap_cons in Hnd. apply NoDup_cons in Hnd as [Hnew Hnd].
  unfold run in *. cbn [forEachBody] in Hrun.
  assert (Hb : fst acc !! body_name b = None)
    by (apply Hfresh; apply elem_of_cons; left; reflexivity).
  destruct (inheritedName (body_name b)) eqn:Hown.
  { rewrite springUpdate_inherited in Hrun by assumption. discriminate. }
  rewrite springUpdate_fresh in Hrun by assumption.
  destruct index as [| index].
  - apply (inj Some) in Hlook. subst b. rewrite Nat.add_0_r.
    destruct (forEachBody_other _ _ _ _ _ Hrun Hnew) as [Hobj Hcache].
    cbn zeta. rewrite Hobj, Hcache. cbn [fst snd].
    rewrite assoc_get_set_same, lookup_insert_eq. split; reflexivity.
  - cbn in Hlook.
    replace (index0 + S index)%nat with (S index0 + index)%nat by lia.
    apply (IH _ _ _ _ _ Hrun Hlook Hnd).
    intros b' Hb'. cbn [fst]. rewrite lookup_insert_ne.
    + apply Hfresh. apply elem_of_cons. right. exact Hb'.
    + intros Heq. apply Hnew. rewrite Heq.
      apply list_elem_of_fmap. exists b'. split; [reflexivity | exact Hb'].
Qed.
End ForEachBody.

(** *** The running branch *)

Lemma runningFrame_fields {tz : TimeZone} (props : AnimationHandlerProps)
    (now : Z) (deltaTime accumulated : R) (exactDate : Z) (st : HandlerState)
    (r : HandlerState * list Callback) :
  runningFrame props now deltaTime accumulated exactDate st = Some r ->
  currentDateRef (fst r) = exactDate
  /\ isAnimationActive (fst r) = true
  /\ isAnimationComplete (fst r) = isAnimationComplete st
  /\ hasStartedRef (fst r) = true
  /\ accumulatedMsRef (fst r) = accumulated.
Proof.
  unfold runningFrame. intros Hr.
  destruct (forEachBody _ _ _ _ _ _ _ _) as [result |]; [| discriminate].
  apply (inj Some) in Hr. subst r. repeat split.
Qed.

Lemma runningFrame_defined {tz : TimeZone} (props : AnimationHandlerProps)
    (now : Z) (deltaTime accumulated : R) (exactDate : Z) (st : HandlerState) :
  (forall body, body ∈ celestialBodies props ->
                inheritedName (body_name body) = false) ->
  is_Some (runningFrame props now deltaTime accumulated exactDate st).
Proof.
  intros Hown. unfold runningFrame.
  match goal with
  | |- context [forEachBody ?tbl ?ei ?ed ?eo ?dt 0 ?bodies ?acc] =>
      destruct (forEachBody_defined tbl ei ed eo dt bodies 0%nat acc Hown)
        as [result Hrun]
  end.
  rewrite Hrun. eexists. reflexivity.
Qed.



Lemma runningFrame_fresh {tz : TimeZone} (props : AnimationHandlerProps) (now : Z)
    (deltaTime accumulated : R) (exactDate : Z) (st : HandlerState)
    (r : HandlerState * list Callback)
    (index : nat) (body : CelestialBodyConfig) :
  runningFrame props now deltaTime accumulated exactDate st = Some r ->
  cachedPositionsRef st = ∅ ->
  NoDup (body_name <$> celestialBodies props) ->
  celestialBodies props !! index = Some body ->
  renderedPosition (fst r) (body_name body) = targetAt props exactDate index body
  /\ cachedPositionsRef (fst r) !! body_name body
     = Some (mkSpring (targetAt props exactDate index body)
                      (targetAt props exactDate index body) origin).
Proof.
  unfold runningFrame. intros Hr Hempty Hnd Hlook.
  destruct (forEachBody _ _ _ _ _ _ _ _) as [result |] eqn:Hrun; [| discriminate].
  apply (inj Some) in Hr. subst r.
  unfold renderedPosition, targetAt.
  cbn [fst allPlanetPositions cachedPositionsRef].
  destruct (forEachBody_fresh _ _ _ _ _ _ 0%nat _ _ index body Hrun Hlook Hnd)
    as [Hobj Hcache].
  { intros b _. cbn [fst]. rewrite Hempty. apply lookup_empty. }
  cbn [Nat.add] in Hobj, Hcache.
  rewrite Hobj, Hcache. split; reflexivity.
Qed.

(** *** The end of playback *)
Lemma useFrame_final {tz : TimeZone} (props : AnimationHandlerProps) (now : Z) (delta : R)
    (st : HandlerState) (s e : Z) :
  readyToAnimate props = true ->
  newDate (startDate props) = Some s -> newDate (endDate props) = Some e ->
  (s < e)%Z ->
  isAnimationActive st = true ->
  IZR (e - s)
  <= accumulate (Rmin delta (1 / 10)) st / (animationDuration props * 1000)
     * IZR (e - s) ->
  useFrame props now delta st
  = Some (finalFrame e (accumulate (Rmin delta (1 / 10)) st) st).
Proof.
  intros Hready Hs He Hlt Hactive Hreach.
  unfold useFrame. rewrite Hready, Hs, He, Hactive. cbn [negb].
  destruct (Z.leb_spec (e - s) 0) as [? | _]; [lia |].
  destruct (Req_dec_T _ 0) as [Hzero | _].
  - exfalso. rewrite Hzero in Hreach. unfold Rdiv in Hreach.
    rewrite Rinv_0, Rmult_0_r, Rmult_0_l in Hreach.
    assert (0 < IZR (e - s)) by (apply IZR_lt; lia). lra.
  - destruct (Rge_dec _ _) as [_ | Hn]; [reflexivity |].
    exfalso. apply Hn. unfold mappedMs.
    rewrite Rmin_right by exact Hreach. apply Rge_refl.
Qed.

Lemma useFrame_running {tz : TimeZone} (props : AnimationHandlerProps) (now : Z) (delta : R)
    (st : HandlerState) (s e : Z) :
  readyToAnimate props = true ->
  newDate (startDate props) = Some s -> newDate (endDate props) = Some e ->
  (s < e)%Z ->
  isAnimationActive st = true ->
  animationDuration props * 1000 <> 0 ->
  mappedMs props (e - s) (accumulate (Rmin delta (1 / 10)) st) < IZR (e - s) ->
  useFrame props now delta st
  = runningFrame props now (Rmin delta (1 / 10))
      (accumulate (Rmin delta (1 / 10)) st)
      (Rtrunc (IZR s
               + mappedMs props (e - s)
                   (accumulate (Rmin delta (1 / 10)) st)))
      st.
Proof.
  intros Hready Hs He Hlt Hactive Hdur Hbelow.
  unfold useFrame. rewrite Hready, Hs, He, Hactive. cbn [negb].
  destruct (Z.leb_spec (e - s) 0) as [? | _]; [lia |].
  destruct (Req_dec_T _ 0) as [Hzero | _]; [contradiction |].
  destruct (Rge_dec _ _) as [Hge | _]; [lra | reflexivity].
Qed.

(** With a duration of zero and nothing accumulated the quotient is not a
    number, and the frame throws. *)
Lemma useFrame_zero_duration {tz : TimeZone} (props : AnimationHandlerProps)
    (now : Z) (delta : R) (st : HandlerState) (s e : Z) :
  readyToAnimate props = true ->
  newDate (startDate props) = Some s -> newDate (endDate props) = Some e ->
  (s < e)%Z ->
  isAnimationActive st = true ->
  animationDuration props = 0 ->
  accumulate (Rmin delta (1 / 10)) st <= 0 ->
  useFrame props now delta st = None.
Proof.
  intros Hready Hs He Hlt Hactive Hdur Hacc.
  unfold useFrame. rewrite Hready, Hs, He, Hactive. cbn [negb].
  destruct (Z.leb_spec (e - s) 0) as [? | _]; [lia |].
  destruct (Req_dec_T _ 0) as [_ | Hnz]; [| exfalso; apply Hnz; rewrite Hdur; ring].
  destruct (Rgt_dec _ 0) as [Hgt | _]; [lra | reflexivity].
Qed.


Lemma useFrame_after_completion {tz : TimeZone} (props : AnimationHandlerProps) (now : Z)
    (delta : R) (st : HandlerState) :
  isAnimationActive st = false ->
  exists callbacks, useFrame props now delta st = Some (st, callbacks).
Proof.
  intros Hidle. unfold useFrame, completeFrame. rewrite Hidle.
  destruct (negb (readyToAnimate props)); [eexists; reflexivity |].
  destruct (newDate (startDate props)) as [s |],
           (newDate (endDate props)) as [e |];
    try (destruct (e - s <=? 0)%Z);
    destruct (isAnimationComplete st); eexists; reflexivity.
Qed.

(** C3 (amended).  When the accumulated time, mapped onto the calendar
    span, reaches or exceeds the span, the frame sets the current date (state
    and ref) to the exact end date and reports it, clears the running flag
    and sets the complete flag, and no later frame changes the state again.
    The body positions and the spring cache are left exactly as they were:
    no end-date position is computed. *)
Theorem C3_completion_keeps_positions {tz : TimeZone}
    (props : AnimationHandlerProps) (now : Z) (delta : R) (st : HandlerState)
    (s e : Z) :
  readyToAnimate props = true ->
  newDate (startDate props) = Some s -> newDate (endDate props) = Some e ->
  (s < e)%Z ->
  isAnimationActive st = true ->
  IZR (e - s)
  <= accumulate (Rmin delta (1 / 10)) st / (animationDuration props * 1000)
     * IZR (e - s) ->
  exists st',
    useFrame props now delta st = Some (st', [onDateChange e; onTextureChange])
    /\ currentDate st' = e /\ currentDateRef st' = e
    /\ allPlanetPositions st' = allPlanetPositions st
    /\ cachedPositionsRef st' = cachedPositionsRef st
    /\ isAnimationActive st' = false /\ isAnimationComplete st' = true
    /\ (forall now' delta', exists callbacks,
           useFrame props now' delta' st' = Some (st', callbacks)).
Proof.
  intros Hready Hs He Hlt Hactive Hreach.
  eexists. split.
  - rewrite (useFrame_final props now delta st s e) by assumption.
    unfold finalFrame. reflexivity.
  - cbn. repeat split.
    intros now' delta'. apply useFrame_after_completion. reflexivity.
Qed.

Lemma Rtrunc_IZR (z : Z) : Rtrunc (IZR z) = z.
Proof.
  unfold Rtrunc. destruct (Rle_dec 0 (IZR z)).
  - apply ZfloorZ.
  - unfold Zceil. rewrite <- opp_IZR, ZfloorZ. lia.
Qed.

Lemma demo_elements_day0 :
  elementsAt demoTable (ISODate 0) 0 = Some (demoEarth 100000000).
Proof. reflexivity. Qed.

Lemma demo_elements_day1 :
  elementsAt demoTable (ISODate 1) 0 = Some (demoEarth 200000000).
Proof. reflexivity. Qed.

Lemma demo_elements_day2 : elementsAt demoTable (ISODate 2) 0 = None.
Proof. reflexivity. Qed.

Lemma demo_earth_mid :
  calculateInterpolatedPosition demoTable 0 43200000
  = Some (mkPosition
            (100000000 + (200000000 - 100000000) * (IZR 43200000 / IZR 86400000))
            (0 + (0 - 0) * (IZR 43200000 / IZR 86400000))
            (0 + (0 - 0) * (IZR 43200000 / IZR 86400000))).
Proof.
  unfold calculateInterpolatedPosition.
  change (toISODate 43200000) with (ISODate 0).
  change (toISODate (nextLocalDay 43200000)) with (ISODate 1).
  rewrite demo_elements_day0, demo_elements_day1.
  unfold demoEarth. rewrite !circular_orbit_at_epoch.
  destruct (decide (ISODate 1 = ISODate 0)) as [Heq | _]; [discriminate |].
  reflexivity.
Qed.

Lemma demo_earth_end :
  calculateInterpolatedPosition demoTable 0 86400000
  = Some (mkPosition 200000000 0 0).
Proof.
  unfold calculateInterpolatedPosition.
  change (toISODate 86400000) with (ISODate 1).
  change (toISODate (nextLocalDay 86400000)) with (ISODate 2).
  rewrite demo_elements_day1, demo_elements_day2.
  unfold demoEarth. rewrite circular_orbit_at_epoch. reflexivity.
Qed.

Lemma demo_step1_accumulated :
  accumulate (Rmin (1 / 10) (1 / 10)) demoStart = 100.
Proof. unfold accumulate. cbn. rewrite Rmin_left by lra. lra. Qed.

Lemma demo_step1_mapped (props : AnimationHandlerProps) :
  animationDuration props = 1 / 5 ->
  mappedMs props (86400000 - 0) 100 = 43200000.
Proof.
  intros Hdur. unfold mappedMs. rewrite Hdur.
  change (86400000 - 0)%Z with 86400000%Z.
  rewrite Rmin_left by lra. lra.
Qed.

Lemma demo_step1_instant (props : AnimationHandlerProps) :
  animationDuration props = 1 / 5 ->
  Rtrunc (IZR 0 + mappedMs props (86400000 - 0)
                    (accumulate (Rmin (1 / 10) (1 / 10)) demoStart))
  = 43200000%Z.
Proof.
  intros Hdur. rewrite demo_step1_accumulated, (demo_step1_mapped props Hdur).
  replace (IZR 0 + 43200000) with (IZR 43200000) by lra.
  apply Rtrunc_IZR.
Qed.

Lemma demo_step1_below (props : AnimationHandlerProps) :
  animationDuration props = 1 / 5 ->
  mappedMs props (86400000 - 0) (accumulate (Rmin (1 / 10) (1 / 10)) demoStart)
  < IZR (86400000 - 0).
Proof.
  intros Hdur. rewrite demo_step1_accumulated, (demo_step1_mapped props Hdur).
  change (86400000 - 0)%Z with 86400000%Z. lra.
Qed.

Lemma demo_sun_target (exactDate : Z) (earth : Position R) :
  bodyTarget demoTable 0 exactDate earth 1 (mkBody "Sun" 2)
  = mkPosition (- pos_x earth * (9 / 100000000)) 0
               (- pos_y earth * (9 / 100000000)).
Proof.
  unfold bodyTarget, transformPlanetPosition. cbn [body_name].
  rewrite transform_Sun, nzero_R, scale_R. reflexivity.
Qed.

Lemma demoBodies_distinct : NoDup (body_name <$> celestialBodies demoProps).
Proof.
  cbn. apply NoDup_cons. split.
  - intros H. apply list_elem_of_singleton in H. discriminate H.
  - apply NoDup_singleton.
Qed.

Lemma demoBodies_own (body : CelestialBodyConfig) :
  body ∈ celestialBodies demoProps -> ownName (body_name body).
Proof.
  change (celestialBodies demoProps) with demoBodies. unfold demoBodies.
  intros Hb.
  repeat (apply elem_of_cons in Hb as [-> | Hb]; [split; reflexivity |]).
  inversion Hb.
Qed.



Lemma demo_mid_target :
  targetAt demoProps 43200000 1 (mkBody "Sun" 2) = mkPosition (-27 / 2) 0 0.
Proof.
  unfold targetAt.
  change (celestialBodies demoProps) with demoBodies.
  change (planetDataByDate demoProps) with demoTable.
  change (earthIndexOf demoBodies) with 0%Z.
  rewrite demo_sun_target, demo_earth_mid. cbn. f_equal; lra.
Qed.

Lemma demo_frame1 :
  exists st1 callbacks,
    useFrame demoProps 16 (1 / 10) demoStart = Some (st1, callbacks)
    /\ isAnimationActive st1 = true
    /\ hasStartedRef st1 = true
    /\ accumulatedMsRef st1 = 100
    /\ renderedPosition st1 "Sun" = mkPosition (-27 / 2) 0 0.
Proof.
  assert (Hdur : animationDuration demoProps * 1000 <> 0) by (cbn; lra).
  rewrite (useFrame_running demoProps 16 (1 / 10) demoStart 0 86400000
             eq_refl eq_refl eq_refl ltac:(lia) eq_refl Hdur
             (demo_step1_below demoProps eq_refl)).
  rewrite (demo_step1_instant demoProps eq_refl), demo_step1_accumulated.
  destruct (runningFrame_defined demoProps 16 (Rmin (1 / 10) (1 / 10)) 100
              43200000 demoStart (fun body Hb => proj1 (demoBodies_own body Hb)))
    as [[st1 callbacks] Hrun].
  exists st1, callbacks. split; [exact Hrun |].
  destruct (runningFrame_fields _ _ _ _ _ _ _ Hrun)
    as (_ & Hact & _ & Hstarted & Hacc).
  destruct (runningFrame_fresh _ _ _ _ _ _ _ 1%nat (mkBody "Sun" 2) Hrun
              eq_refl demoBodies_distinct eq_refl) as [Hsun _].
  cbn [fst body_name] in *.
  split; [exact Hact |]. split; [exact Hstarted |]. split; [exact Hacc |].
  rewrite Hsun. exact demo_mid_target.
Qed.

Lemma demo_end_target :
  targetAt demoProps 86400000 1 (mkBody "Sun" 2) = mkPosition (-18) 0 0.
Proof.
  unfold targetAt.
  change (celestialBodies demoProps) with demoBodies.
  change (planetDataByDate demoProps) with demoTable.
  change (earthIndexOf demoBodies) with 0%Z.
  rewrite demo_sun_target, demo_earth_end. cbn. f_equal; lra.
Qed.

(** C3 as stated fails.  Two frames of 0.1 s in the 0.2 s session: the
    first puts the Sun at x = -13.5 (Earth half-way through the day), the
    second completes playback and leaves it there, while the end-date
    position is x = -18. *)
Lemma C3_counterexample :
  exists st1 callbacks1 st2 callbacks2,
    useFrame demoProps 16 (1 / 10) demoStart = Some (st1, callbacks1)
    /\ useFrame demoProps 32 (1 / 10) st1 = Some (st2, callbacks2)
    /\ isAnimationComplete st2 = true
    /\ currentDate st2 = 86400000%Z
    /\ renderedPosition st2 "Sun" = mkPosition (-27 / 2) 0 0
    /\ targetAt demoProps 86400000 1 (mkBody "Sun" 2) = mkPosition (-18) 0 0
    /\ ~ snappedToEnd demoProps 86400000 st2.
Proof.
  destruct demo_frame1 as [st1 [callbacks1 [H1 [Hact [Hstarted [Hacc Hsun]]]]]].
  exists st1, callbacks1. eexists _, _.
  assert (Hfinal := useFrame_final demoProps 32 (1 / 10) st1 0 86400000
                      eq_refl eq_refl eq_refl ltac:(lia) Hact).
  split; [exact H1 |]. split.
  - rewrite Hfinal; [reflexivity |].
    unfold accumulate. rewrite Hstarted, Hacc, Rmin_left by lra.
    cbn [animationDuration demoProps]. change (86400000 - 0)%Z with 86400000%Z.
    lra.
  - cbn [isAnimationComplete currentDate].
    split; [reflexivity |]. split; [reflexivity |].
    assert (Hsun2 : renderedPosition
                      (mkState 86400000 (allPlanetPositions st1) false true
                         86400000 (lastDateUpdateRef st1) (frameCountRef st1)
                         true (accumulate (Rmin (1 / 10) (1 / 10)) st1)
                         (cachedPositionsRef st1)) "Sun"
                    = mkPosition (-27 / 2) 0 0) by exact Hsun.
    split; [exact Hsun2 |]. split; [exact demo_end_target |].
    intros Hsnap. specialize (Hsnap 1%nat (mkBody "Sun" 2) eq_refl).
    cbn [body_name] in Hsnap. rewrite Hsun2, demo_end_target in Hsnap.
    injection Hsnap as Hx. lra.
Qed.

Lemma C3_witness :
  exists st',
    useFrame demoProps 32 (1 / 10) demoMid
    = Some (st', [onDateChange 86400000; onTextureChange])
    /\ isAnimationComplete st' = true
    /\ allPlanetPositions st' = allPlanetPositions demoMid.
Proof.
  destruct (C3_completion_keeps_positions demoProps 32 (1 / 10) demoMid
              0 86400000 eq_refl eq_refl eq_refl) as [st' H].
  - lia.
  - reflexivity.
  - unfold accumulate. cbn. change (86400000 - 0)%Z with 86400000%Z.
    rewrite Rmin_left by lra. lra.
  - exists st'. split; [apply H |]. split; apply H.
Defined.

(** *** Further scenarios *)

(** X2.  Interpolator continuity: in every time zone, when a body has the
    same elements on the instant's UTC date and on the UTC date of the
    instant one local calendar day later, the interpolated position is the
    Kepler position of those elements, at any time of the day. *)
Theorem interpolation_between_identical_days {tz : TimeZone}
    (tbl : Table) (planetIndex exactDate : Z) (data : PlanetData) :
  elementsAt tbl (toISODate exactDate) planetIndex = Some data ->
  elementsAt tbl (toISODate (nextLocalDay exactDate)) planetIndex = Some data ->
  calculateInterpolatedPosition tbl planetIndex exactDate
  = Some (calculateCelestialPosition data 0).
Proof.
  intros Hcur Hnext. unfold calculateInterpolatedPosition.
  rewrite Hcur, Hnext.
  destruct (decide _) as [_ | _]; [reflexivity |].
  destruct (calculateCelestialPosition data 0) as [x y z]. cbn.
  do 2 f_equal; ring.
Qed.

Lemma interpolation_between_identical_days_witness :
  calculateInterpolatedPosition steadyTable 0 43200000
  = Some (calculateCelestialPosition (demoEarth 1) 0).
Proof.
  apply interpolation_between_identical_days; reflexivity.
Defined.

(** *** Interpolation, first frame and the length of playback *)

Lemma toISODate_within_day (d ms : Z) :
  (0 <= ms < MS_PER_DAY)%Z -> toISODate (d * MS_PER_DAY + ms) = ISODate d.
Proof.
  intros Hms. unfold toISODate. f_equal.
  rewrite Z.add_comm, Z.div_add by (unfold MS_PER_DAY; lia).
  rewrite Z.div_small by exact Hms. lia.
Qed.

(** X24.  Interpolation within a day: where the local days all last 24
    hours, when the body has elements on day d and on day d + 1, the
    interpolated position ms milliseconds after the midnight of day d
    (0 <= ms < 86400000) is the point at the fraction ms / 86400000 of the
    segment from the Kepler position of day d to that of day d + 1; the
    fraction is in [0, 1). *)
Theorem interpolation_is_linear_within_day {tz : TimeZone}
    (tbl : Table) (planetIndex d ms : Z) (today tomorrow : PlanetData) :
  fixedOffset ->
  (0 <= ms < MS_PER_DAY)%Z ->
  elementsAt tbl (ISODate d) planetIndex = Some today ->
  elementsAt tbl (ISODate (d + 1)) planetIndex = Some tomorrow ->
  let p := calculateCelestialPosition today 0 in
  let q := calculateCelestialPosition tomorrow 0 in
  let progress := IZR ms / IZR MS_PER_DAY in
  0 <= progress < 1
  /\ calculateInterpolatedPosition tbl planetIndex (d * MS_PER_DAY + ms)
     = Some (mkPosition (pos_x p + (pos_x q - pos_x p) * progress)
                        (pos_y p + (pos_y q - pos_y p) * progress)
                        (pos_z p + (pos_z q - pos_z p) * progress)).
Proof.
  intros Hfixed Hms Htoday Htomorrow p q progress.
  split.
  - unfold progress, MS_PER_DAY in *.
    assert (H0 : 0 <= IZR ms) by (apply IZR_le; lia).
    assert (H1 : IZR ms < 86400000) by (apply IZR_lt; lia).
    split.
    + apply Rmult_le_pos; [exact H0 |]. left. apply Rinv_0_lt_compat. lra.
    + apply Rmult_lt_reg_r with 86400000; [lra |].
      unfold Rdiv. rewrite Rmult_assoc, Rinv_l by lra. lra.
  - unfold calculateInterpolatedPosition.
    rewrite (nextLocalDay_fixed _ Hfixed).
    rewrite toISODate_within_day by exact Hms.
    replace (d * MS_PER_DAY + ms + MS_PER_DAY)%Z
      with ((d + 1) * MS_PER_DAY + ms)%Z by lia.
    rewrite toISODate_within_day by exact Hms.
    rewrite Htoday, Htomorrow.
    destruct (decide (ISODate (d + 1) = ISODate d)) as [Heq | _];
      [injection Heq; lia |].
    fold p q. cbn [newDate default]. unfold Datatypes.id.
    replace (d * MS_PER_DAY + ms - d * MS_PER_DAY)%Z with ms by lia.
    replace ((d + 1) * MS_PER_DAY - d * MS_PER_DAY)%Z with MS_PER_DAY by lia.
    reflexivity.
Qed.

Lemma interpolation_is_linear_within_day_witness :
  let p := calculateCelestialPosition (demoEarth 100000000) 0 in
  let q := calculateCelestialPosition (demoEarth 200000000) 0 in
  let progress := IZR 43200000 / IZR MS_PER_DAY in
  0 <= progress < 1
  /\ calculateInterpolatedPosition demoTable 0 (0 * MS_PER_DAY + 43200000)
     = Some (mkPosition (pos_x p + (pos_x q - pos_x p) * progress)
                        (pos_y p + (pos_y q - pos_y p) * progress)
                        (pos_z p + (pos_z q - pos_z p) * progress)).
Proof.
  apply (interpolation_is_linear_within_day demoTable 0 0 43200000
           (demoEarth 100000000) (demoEarth 200000000));
    [exact utcZone_fixedOffset | unfold MS_PER_DAY; lia | reflexivity | reflexivity].
Defined.

(** *** First frame *)



(** *** Missing elements *)




(** *** The displayed date *)

Lemma Rtrunc_between (s e : Z) (x : R) :
  IZR s <= x < IZR e -> (s <= Rtrunc x <= e)%Z.
Proof.
  intros [Hlo Hhi]. unfold Rtrunc. destruct (Rle_dec 0 x) as [_ | _].
  - split; [apply Zfloor_lub; exact Hlo |].
    pose proof (Zfloor_bound x) as [Hf _].
    apply le_IZR. lra.
  - pose proof (Zceil_bound x) as [Hc1 Hc2]. split.
    + apply le_IZR. lra.
    + assert (H : (Zceil x < e + 1)%Z); [| lia].
      apply lt_IZR. rewrite plus_IZR. lra.
Qed.

Lemma mappedMs_reached (props : AnimationHandlerProps) (totalMs : Z)
    (accumulated : R) :
  (0 < totalMs)%Z -> 0 < animationDuration props ->
  mappedMs props totalMs accumulated >= IZR totalMs ->
  animationDuration props * 1000 <= accumulated.
Proof.
  intros Ht Hd Hge. unfold mappedMs in Hge.
  assert (HT : 0 < IZR totalMs) by (apply IZR_lt; lia).
  set (D := animationDuration props * 1000) in *.
  assert (HD : 0 < D) by (unfold D; lra).
  assert (Hf : IZR totalMs <= accumulated / D * IZR totalMs).
  { destruct (Rle_dec (accumulated / D * IZR totalMs) (IZR totalMs)) as [Hle | Hgt].
    - rewrite Rmin_left in Hge by exact Hle. lra.
    - lra. }
  assert (H1 : 1 <= accumulated / D).
  { apply Rmult_le_reg_r with (IZR totalMs); [exact HT |]. lra. }
  apply Rmult_le_compat_r with (r := D) in H1; [| lra].
  unfold Rdiv in H1. rewrite Rmult_assoc, Rinv_l in H1 by lra. lra.
Qed.

Lemma mappedMs_nonneg (props : AnimationHandlerProps) (totalMs : Z)
    (accumulated : R) :
  (0 < totalMs)%Z -> 0 < animationDuration props -> 0 <= accumulated ->
  0 <= mappedMs props totalMs accumulated.
Proof.
  intros Ht Hd Hacc. unfold mappedMs.
  assert (HT : 0 < IZR totalMs) by (apply IZR_lt; lia).
  apply Rmin_glb; [| lra].
  apply Rmult_le_pos; [| lra].
  apply Rmult_le_pos; [exact Hacc |].
  left. apply Rinv_0_lt_compat. lra.
Qed.

Lemma accumulate_bounds (delta : R) (st : HandlerState) :
  let before := if hasStartedRef st then accumulatedMsRef st else 0 in
  accumulate (Rmin delta (1 / 10)) st <= before + 100
  /\ (0 <= delta -> before <= accumulate (Rmin delta (1 / 10)) st).
Proof.
  intros before. unfold accumulate. fold before.
  pose proof (Rmin_r delta (1 / 10)) as Hr.
  split; [lra |].
  intros Hd. assert (0 <= Rmin delta (1 / 10)) by (apply Rmin_glb; lra). lra.
Qed.


(** X26.  The displayed date stays in the session: with a positive
    duration, a non-negative frame time and no body named after a member of
    Object.prototype, an active frame returns normally and leaves the
    current date between the start and the end date and the accumulated
    time non-negative; if it ends the playback, the date is the end date,
    the complete flag is set and the accumulated time has reached the
    duration. *)
Theorem displayed_date_stays_in_span {tz : TimeZone}
    (props : AnimationHandlerProps) (now : Z) (delta : R) (st : HandlerState)
    (s e : Z) :
  readyToAnimate props = true ->
  newDate (startDate props) = Some s -> newDate (endDate props) = Some e ->
  (s < e)%Z ->
  0 < animationDuration props -> 0 <= delta ->
  isAnimationActive st = true ->
  (hasStartedRef st = true -> 0 <= accumulatedMsRef st) ->
  (forall body, body ∈ celestialBodies props ->
                inheritedName (body_name body) = false) ->
  exists st' callbacks,
    useFrame props now delta st = Some (st', callbacks)
    /\ (s <= currentDateRef st' <= e)%Z
    /\ hasStartedRef st' = true
    /\ 0 <= accumulatedMsRef st'
    /\ (isAnimationActive st' = false ->
        currentDateRef st' = e /\ isAnimationComplete st' = true
        /\ animationDuration props * 1000 <= accumulatedMsRef st').
Proof.
  intros Hready Hs He Hlt Hdur Hdelta Hactive Hacc Hown.
  pose proof (accumulate_bounds delta st) as [_ Hmono].
  specialize (Hmono Hdelta).
  assert (Hnonneg : 0 <= accumulate (Rmin delta (1 / 10)) st).
  { destruct (hasStartedRef st); [specialize (Hacc eq_refl) |]; lra. }
  unfold useFrame. rewrite Hready, Hs, He, Hactive. cbn [negb].
  destruct (Z.leb_spec (e - s) 0) as [? | Hpos]; [lia |].
  destruct (Req_dec_T _ 0) as [Hzero | _]; [lra |].
  destruct (Rge_dec _ _) as [Hge | Hbelow].
  - eexists _, _. split; [reflexivity |]. unfold finalFrame.
    cbn [currentDateRef hasStartedRef accumulatedMsRef isAnimationActive
         isAnimationComplete].
    split; [lia |]. split; [reflexivity |]. split; [exact Hnonneg |].
    intros _. split; [reflexivity |]. split; [reflexivity |].
    apply (mappedMs_reached props (e - s)); [lia | exact Hdur | exact Hge].
  - match goal with
    | |- context [runningFrame props now ?dt ?acc ?ed st] =>
        destruct (runningFrame_defined props now dt acc ed st Hown)
          as [[st' callbacks] Hrun]
    end.
    exists st', callbacks. split; [exact Hrun |].
    destruct (runningFrame_fields _ _ _ _ _ _ _ Hrun)
      as (Hdate & Hact & _ & Hstarted & Hacc').
    cbn [fst] in Hdate, Hact, Hstarted, Hacc'.
    rewrite Hdate, Hact, Hstarted, Hacc'.
    split.
    + apply Rtrunc_between.
      pose proof (mappedMs_nonneg props (e - s) _ Hpos Hdur Hnonneg) as H0.
      rewrite minus_IZR in Hbelow. lra.
    + split; [reflexivity |]. split; [exact Hnonneg |]. discriminate.
Qed.

Lemma displayed_date_stays_in_span_witness :
  exists st' callbacks,
    useFrame demoProps 0 (1 / 10) demoStart = Some (st', callbacks)
    /\ (0 <= currentDateRef st' <= 86400000)%Z
    /\ hasStartedRef st' = true
    /\ 0 <= accumulatedMsRef st'
    /\ (isAnimationActive st' = false ->
        currentDateRef st' = 86400000%Z /\ isAnimationComplete st' = true
        /\ animationDuration demoProps * 1000 <= accumulatedMsRef st').
Proof.
  apply (displayed_date_stays_in_span demoProps 0 (1 / 10) demoStart 0 86400000).
  - reflexivity.
  - reflexivity.
  - reflexivity.
  - lia.
  - simpl. lra.
  - lra.
  - reflexivity.
  - intros H. discriminate H.
  - intros body Hb. exact (proj1 (demoBodies_own body Hb)).
Defined.

Lemma runFrames_idle {tz : TimeZone} (props : AnimationHandlerProps) (inputs : list (Z * R)) :
  forall st, isAnimationActive st = false -> runFrames props inputs st = Some st.
Proof.
  induction inputs as [| [now delta] inputs IH]; intros st Hidle; [reflexivity |].
  cbn [runFrames].
  destruct (useFrame_after_completion props now delta st Hidle) as [cbs ->].
  apply IH. exact Hidle.
Qed.


Lemma runFrames_budget {tz : TimeZone} (props : AnimationHandlerProps) (s e : Z) :
  readyToAnimate props = true ->
  newDate (startDate props) = Some s -> newDate (endDate props) = Some e ->
  (s < e)%Z ->
  0 < animationDuration props ->
  forall (inputs : list (Z * R)) (st st' : HandlerState) (k : nat),
    isAnimationActive st = true ->
    (if hasStartedRef st then accumulatedMsRef st else 0) <= 100 * INR k ->
    runFrames props inputs st = Some st' ->
    isAnimationActive st' = false ->
    animationDuration props * 1000 <= 100 * INR (k + length inputs).
Proof.
  intros Hready Hs He Hlt Hdur.
  induction inputs as [| [now delta] inputs IH];
    intros st st' k Hactive Hbudget Hrun Hidle.
  - cbn in Hrun. injection Hrun as <-. congruence.
  - cbn [runFrames] in Hrun.
    pose proof (accumulate_bounds delta st) as [Hup _]. cbn zeta in Hup.
    assert (Hnext : accumulate (Rmin delta (1 / 10)) st <= 100 * INR (S k))
      by (rewrite S_INR; lra).
    unfold useFrame in Hrun. rewrite Hready, Hs, He, Hactive in Hrun.
    cbn [negb] in Hrun.
    destruct (Z.leb_spec (e - s) 0) as [? | Hpos]; [lia |].
    destruct (Req_dec_T _ 0) as [Hzero | _]; [lra |].
    destruct (Rge_dec _ _) as [Hge | Hbelow].
    + apply (mappedMs_reached props (e - s)) in Hge; [| lia | exact Hdur].
      cbn [length]. rewrite Nat.add_succ_r, S_INR, plus_INR.
      rewrite S_INR in Hnext. pose proof (pos_INR (length inputs)). lra.
    + cbn [length]. rewrite Nat.add_succ_r, <- Nat.add_succ_l.
      destruct (runningFrame _ _ _ _ _ _) as [[st1 callbacks] |] eqn:Hframe;
        [| discriminate].
      destruct (runningFrame_fields _ _ _ _ _ _ _ Hframe)
        as (_ & Hact & _ & Hstarted & Hacc).
      cbn [fst] in Hact, Hstarted, Hacc.
      eapply IH; [exact Hact | | exact Hrun | exact Hidle].
      rewrite Hstarted, Hacc. exact Hnext.
Qed.

(** X27.  Playback cannot finish early: a frame counts at most 0.1 s, so a
    session of D seconds that starts fresh is still running after fewer
    than 10 D frames; when a run of frames has ended the playback, the
    date is the end date and the complete flag is set. *)
Theorem playback_needs_enough_frames {tz : TimeZone}
    (props : AnimationHandlerProps) (inputs : list (Z * R))
    (st st' : HandlerState) (s e : Z) :
  readyToAnimate props = true ->
  newDate (startDate props) = Some s -> newDate (endDate props) = Some e ->
  (s < e)%Z ->
  0 < animationDuration props ->
  isAnimationActive st = true -> hasStartedRef st = false ->
  runFrames props inputs st = Some st' ->
  isAnimationActive st' = false ->
  animationDuration props * 10 <= INR (length inputs)
  /\ currentDateRef st' = e /\ isAnimationComplete st' = true.
Proof.
  intros Hready Hs He Hlt Hdur Hactive Hfresh Hrun Hidle.
  split.
  - pose proof (runFrames_budget props s e Hready Hs He Hlt Hdur inputs st st'
                  0%nat Hactive) as H.
    rewrite Hfresh in H. cbn [INR Nat.add] in H.
    specialize (H ltac:(lra) Hrun Hidle). lra.
  - clear Hfresh. revert st Hactive Hrun.
    induction inputs as [| [now delta] inputs IH]; intros st Hactive Hrun.
    + cbn in Hrun. injection Hrun as <-. congruence.
    + cbn [runFrames] in Hrun.
      unfold useFrame in Hrun. rewrite Hready, Hs, He, Hactive in Hrun.
      cbn [negb] in Hrun.
      destruct (Z.leb_spec (e - s) 0) as [? | Hpos]; [lia |].
      destruct (Req_dec_T _ 0) as [Hzero | _]; [lra |].
      destruct (Rge_dec _ _) as [Hge | Hbelow].
      * unfold finalFrame in Hrun. rewrite runFrames_idle in Hrun by reflexivity.
        injection Hrun as <-. split; reflexivity.
      * destruct (runningFrame _ _ _ _ _ _) as [[st1 callbacks] |] eqn:Hframe;
          [| discriminate].
        destruct (runningFrame_fields _ _ _ _ _ _ _ Hframe) as (_ & Hact & _).
        cbn [fst] in Hact.
        eapply IH; [exact Hact | exact Hrun].
Qed.

Lemma playback_needs_enough_frames_witness :
  animationDuration quickProps * 10 <= INR (length [(0%Z, 1 / 10)])
  /\ currentDateRef
       (fst (finalFrame 86400000 (accumulate (Rmin (1 / 10) (1 / 10)) demoStart)
               demoStart)) = 86400000%Z
  /\ isAnimationComplete
       (fst (finalFrame 86400000 (accumulate (Rmin (1 / 10) (1 / 10)) demoStart)
               demoStart)) = true.
Proof.
  apply (playback_needs_enough_frames quickProps [(0%Z, 1 / 10)] demoStart
           (fst (finalFrame 86400000
                   (accumulate (Rmin (1 / 10) (1 / 10)) demoStart) demoStart))
           0 86400000).
  - reflexivity.
  - reflexivity.
  - reflexivity.
  - lia.
  - simpl. lra.
  - reflexivity.
  - reflexivity.
  - cbn [runFrames].
    rewrite (useFrame_final quickProps 0 (1 / 10) demoStart 0 86400000).
    + reflexivity.
    + reflexivity.
    + reflexivity.
    + reflexivity.
    + lia.
    + reflexivity.
    + rewrite demo_step1_accumulated. cbn [animationDuration quickProps].
      change (86400000 - 0)%Z with 86400000%Z. lra.
  - reflexivity.
Defined.

(** ** Body smoothing ([SimpleCelestialBody]) *)

Lemma bodyFrame_idle_cases (t p : Position R) :
  (distanceSquared p t < 4 / 10000 /\ bodyFrame false t (Some p) = Some t)
  \/ (4 / 10000 <= distanceSquared p t
      /\ bodyFrame false t (Some p) = Some (halfway p t)).
Proof.
  unfold bodyFrame. cbn [negb andb].
  assert (Hd : (pos_x t - (pos_x p + (pos_x t - pos_x p) * (5 / 10))) ^ 2
               + (pos_y t - (pos_y p + (pos_y t - pos_y p) * (5 / 10))) ^ 2
               + (pos_z t - (pos_z p + (pos_z t - pos_z p) * (5 / 10))) ^ 2
               = distanceSquared p t / 4)
    by (unfold distanceSquared; field).
  rewrite Hd.
  destruct (Rlt_dec (distanceSquared p t / 4) (1 / 10000)) as [Hlt | Hge].
  - left. split; [lra | reflexivity].
  - right. split; [lra | reflexivity].
Qed.

Lemma distanceSquared_halfway (t p : Position R) :
  distanceSquared (halfway p t) t = distanceSquared p t / 4.
Proof. unfold distanceSquared, halfway. cbn [pos_x pos_y pos_z]. field. Qed.

Lemma distanceSquared_refl (t : Position R) : distanceSquared t t = 0.
Proof. unfold distanceSquared. ring. Qed.

Lemma bodyFrame_idle_at_target (t : Position R) (n : nat) :
  Nat.iter n (bodyFrame false t) (Some t) = Some t.
Proof.
  induction n as [| n IH]; [reflexivity |].
  rewrite Nat.iter_succ, IH.
  destruct (bodyFrame_idle_cases t t) as [[_ H] | [H _]]; [exact H |].
  rewrite distanceSquared_refl in H. lra.
Qed.

Lemma bodyFrame_idle_reaches (t : Position R) (k : nat) :
  forall p : Position R,
    distanceSquared p t < 4 ^ S k / 10000 ->
    Nat.iter (S k) (bodyFrame false t) (Some p) = Some t.
Proof.
  induction k as [| k IH]; intros p Hd.
  - cbn [Nat.iter]. destruct (bodyFrame_idle_cases t p) as [[_ H] | [H _]];
      [exact H |]. cbn [pow] in Hd. lra.
  - rewrite Nat.iter_succ_r.
    destruct (bodyFrame_idle_cases t p) as [[_ H] | [_ H]]; rewrite H.
    + apply bodyFrame_idle_at_target.
    + apply IH. rewrite distanceSquared_halfway.
      cbn [pow] in Hd |- *. lra.
Qed.

Lemma INR_le_pow4 (n : nat) : INR n + 1 <= 4 ^ n.
Proof.
  induction n as [| n IH]; [simpl; lra |].
  rewrite S_INR. cbn [pow]. set (a := 4 ^ n) in *.
  assert (0 <= INR n) by apply pos_INR. lra.
Qed.

(** X28.  A stopped body settles: once the animation is inactive, a mounted
    body reaches its target position exactly after finitely many frames
    (each frame halves the gap, and a gap below 0.01 is closed), and stays
    there. *)
Theorem body_settles_when_stopped (targetPosition position : Position R) :
  exists n : nat,
    forall m : nat, (n <= m)%nat ->
      Nat.iter m (bodyFrame false targetPosition) (Some position)
      = Some targetPosition.
Proof.
  destruct (INR_unbounded (distanceSquared position targetPosition * 10000))
    as [k Hk].
  exists (S k). intros m Hm.
  replace m with ((m - S k) + S k)%nat by lia.
  rewrite Nat.iter_add, bodyFrame_idle_reaches.
  - apply bodyFrame_idle_at_target.
  - pose proof (INR_le_pow4 k) as Hp.
    pose proof (pos_INR k) as Hk0.
    cbn [pow]. set (a := 4 ^ k) in *. lra.
Qed.

(** X29.  A running body trails its target: while the animation is active,
    each frame multiplies the gap to a fixed target by 0.7, so after n
    frames the body is at target - 0.7^n (target - start), and it never
    reaches the target unless it started on it. *)
Theorem body_gap_shrinks_while_running
    (targetPosition position : Position R) (n : nat) :
  let gap (c : Position R -> R) := (7 / 10) ^ n * (c targetPosition - c position) in
  Nat.iter n (bodyFrame true targetPosition) (Some position)
  = Some (mkPosition (pos_x targetPosition - gap pos_x)
                     (pos_y targetPosition - gap pos_y)
                     (pos_z targetPosition - gap pos_z))
  /\ (position <> targetPosition ->
      Nat.iter n (bodyFrame true targetPosition) (Some position)
      <> Some targetPosition).
Proof.
  intros gap. unfold gap.
  assert (Hclosed :
    Nat.iter n (bodyFrame true targetPosition) (Some position)
    = Some (mkPosition
              (pos_x targetPosition - (7 / 10) ^ n * (pos_x targetPosition - pos_x position))
              (pos_y targetPosition - (7 / 10) ^ n * (pos_y targetPosition - pos_y position))
              (pos_z targetPosition - (7 / 10) ^ n * (pos_z targetPosition - pos_z position)))).
  { induction n as [| n IH].
    - unfold Nat.iter. cbn [nat_rect]. destruct position as [x y z].
      cbn [pos_x pos_y pos_z pow].
      apply f_equal. f_equal; ring.
    - rewrite Nat.iter_succ, IH. unfold bodyFrame.
      cbn [negb andb pos_x pos_y pos_z].
      change ((7 / 10) ^ S n) with (7 / 10 * (7 / 10) ^ n).
      apply f_equal. f_equal; field. }
  split; [exact Hclosed |].
  intros Hne Heq. rewrite Hclosed in Heq. apply (inj Some) in Heq.
  apply Hne. destruct position as [x y z], targetPosition as [tx ty tz].
  cbn [pos_x pos_y pos_z] in Heq.
  assert (Hp : 0 < (7 / 10) ^ n) by (apply pow_lt; lra).
  injection Heq as Hx Hy Hz.
  f_equal; nra.
Qed.

Lemma body_gap_shrinks_while_running_witness :
  Nat.iter 3 (bodyFrame true origin) (Some (mkPosition 1 0 0)) <> Some origin.
Proof.
  apply (proj2 (body_gap_shrinks_while_running origin (mkPosition 1 0 0) 3)).
  unfold origin. intros H. injection H as H. lra.
Defined.

(** ** Zodiac signs ([getZodiacSign]) *)

(** X30.  Zodiac signs: a longitude in the k-th interval
    [30 k, 30 k + 30) of the table gets the k-th sign and the degree
    longitude - 30 k, which is in [0, 30); a longitude below 0, or 360 and
    above, gets 'Aries' with the longitude itself as degree. *)
Theorem zodiac_sign_of_longitude (longitude : R) :
  (forall (k : nat) (name : string) (start : R),
      signs !! k = Some (name, start) ->
      start <= longitude < start + 30 ->
      start = 30 * INR k
      /\ getZodiacSign longitude = (name, longitude - start)
      /\ 0 <= snd (getZodiacSign longitude) < 30)
  /\ (longitude < 0 \/ 360 <= longitude ->
      getZodiacSign longitude = ("Aries"%string, longitude)).
Proof.
  split.
  - intros k name start Hk Hin.
    assert (Hkey : start = 30 * INR k
                   /\ getZodiacSign longitude = (name, longitude - start)).
    { do 12 (destruct k as [| k];
             [ apply (inj Some) in Hk; injection Hk as <- <-;
               split; [simpl; lra |];
               unfold getZodiacSign, signs; cbn [List.find snd fst];
               repeat (destruct (Rge_dec _ _); destruct (Rlt_dec _ _);
                       cbn [andb]; try lra);
               reflexivity
             | cbn in Hk ]).
      discriminate. }
    destruct Hkey as [Hstart Hsign]. split; [exact Hstart |].
    split; [exact Hsign |]. rewrite Hsign. cbn [snd]. lra.
  - intros [Hout | Hout]; unfold getZodiacSign, signs; cbn [List.find snd fst].
    all: repeat (destruct (Rge_dec _ _); destruct (Rlt_dec _ _);
            cbn [andb]; try lra).
    all: cbn [fst snd]; f_equal; lra.
Qed.

Lemma zodiac_sign_of_longitude_witness :
  getZodiacSign 45 = ("Taurus"%string, 45 - 30).
Proof.
  apply (proj1 (proj2 (proj1 (zodiac_sign_of_longitude 45) 1%nat
                         "Taurus"%string 30 eq_refl ltac:(lra)))).
Defined.
